(** * Fracao: exact fractions kept in lowest terms (fracao.py)

    A shallow embedding of the Python class [Fracao] and the proofs of its
    contracts.  Python integers are unbounded, so they are [Z]; objects live
    in a store indexed by references, because [__iadd__] and [simplifica]
    mutate their receiver and two names may denote one object. *)

From Stdlib Require Import ZArith Znumtheory QArith Ascii.
From Equations Require Import Equations.
From stdpp Require Import base list strings pretty.

Local Open Scope Z_scope.

(** ** Objects, references and the store *)

(** An instance of [Fracao]: the attributes [self.num] and [self.den]. *)
Record Fracao : Type := mkFracao { num : Z; den : Z }.

(** A reference to an object is its index in the store.  Objects are only
    ever appended, never removed. *)
Abbreviation loc := nat (only parsing).
Abbreviation heap := (list Fracao) (only parsing).

(** Exceptions the class can raise.  [AttributeError] is what Python raises
    when an operand is not an object carrying [num] and [den]; here it is a
    reference outside the store. *)
Inductive exn : Type :=
| ValueError (msg : string)
| AttributeError.

Inductive outcome (A : Type) : Type :=
| Ret (a : A)
| Raise (e : exn).
Arguments Ret {A} a.
Arguments Raise {A} e.

(** A computation takes the store and gives back an outcome and the store as
    the computation left it, also when it raised. *)
Definition M (A : Type) : Type := heap -> outcome A * heap.

Definition ret {A} (a : A) : M A := fun h => (Ret a, h).

Definition raise {A} (e : exn) : M A := fun h => (Raise e, h).

Definition bind {A B} (m : M A) (k : A -> M B) : M B :=
  fun h =>
    match m h with
    | (Ret a, h') => k a h'
    | (Raise e, h') => (Raise e, h')
    end.

Declare Scope py_scope.
Delimit Scope py_scope with py.
Notation "'let*' x ':=' m 'in' k" := (bind m (fun x => k))
  (at level 10, x name, m at level 100, k at level 200) : py_scope.
Notation "m ';;;' k" := (bind m (fun _ => k))
  (at level 100, k at level 200, right associativity) : py_scope.
Local Open Scope py_scope.

(** Attribute reads and writes. *)
Definition get_num (l : loc) : M Z :=
  fun h => match h !! l with
           | Some f => (Ret (num f), h)
           | None => (Raise AttributeError, h)
           end.

Definition get_den (l : loc) : M Z :=
  fun h => match h !! l with
           | Some f => (Ret (den f), h)
           | None => (Raise AttributeError, h)
           end.

Definition set_num (l : loc) (v : Z) : M unit :=
  fun h => match h !! l with
           | Some f => (Ret tt, <[l := mkFracao v (den f)]> h)
           | None => (Raise AttributeError, h)
           end.

Definition set_den (l : loc) (v : Z) : M unit :=
  fun h => match h !! l with
           | Some f => (Ret tt, <[l := mkFracao (num f) v]> h)
           | None => (Raise AttributeError, h)
           end.

(** A new object, placed after every existing one. *)
Definition alloc (f : Fracao) : M loc :=
  fun h => (Ret (length h), h ++ [f]).

(** ** The methods of [Fracao] *)

(** The loop of [mdc]: [while y != 0: x, y = y, x % y], then [return x].
    Python's [%] takes the sign of the divisor, as [Z.modulo] does. *)
Equations? mdc_loop (x y : Z) : Z by wf (Z.to_nat (Z.abs y)) lt :=
  mdc_loop x y with Z.eq_dec y 0 => {
    | left _ := x;
    | right _ := mdc_loop y (x mod y) }.
Proof.
  pose proof (Z.mod_bound_or x y ltac:(assumption)). lia.
Qed.

(** [mdc(self)]: Euclid's algorithm on the absolute values of the fields. *)
Definition mdc (self : loc) : M Z :=
  let* n := get_num self in
  let* d := get_den self in
  let x := Z.abs n in
  let y := Z.abs d in
  ret (mdc_loop x y).

(** [simplifica(self)]: divides both fields by their [mdc] when it exceeds
    one, and returns the receiver.  [//] is floor division, [Z.div]. *)
Definition simplifica (self : loc) : M loc :=
  let* divisor := mdc self in
  (if 1 <? divisor then
     (let* n := get_num self in set_num self (n / divisor));;;
     (let* d := get_den self in set_den self (d / divisor))
   else ret tt);;;
  ret self.

Definition msg_den_zero : string := "O denominador não pode ser zero.".
Definition msg_div_zero : string :=
  "Não é possível dividir por uma fração com numerador zero.".

(** The call [Fracao(num, den)]: a new object initialised by [__init__],
    whose reference is the value of the call.  The guard of [__init__] comes
    first and raises before any attribute is assigned; the two assignments
    [self.num = num] and [self.den = den] then give the new object its
    attributes, which is where it enters the store.  The sign is moved to
    the numerator and the object is reduced. *)
Definition __init__ (n d : Z) : M loc :=
  if d =? 0 then raise (ValueError msg_den_zero)
  else
    let* self := alloc (mkFracao n d) in
    (let* sd := get_den self in
     if sd <? 0 then
       (let* sn := get_num self in set_num self (- sn));;;
       (let* sd := get_den self in set_den self (- sd))
     else ret tt);;;
    simplifica self;;;
    ret self.

(** [__str__(self)]; [pretty] writes an integer as Python's [str] does, in
    decimal with a leading minus sign for negative numbers. *)
Definition __str__ (self : loc) : M string :=
  let* n := get_num self in
  if n =? 0 then ret "0"%string
  else
    let* d := get_den self in
    if d =? 1 then
      let* n := get_num self in ret (pretty n)
    else
      let* n := get_num self in
      let* d := get_den self in
      ret (pretty n +:+ "/" +:+ pretty d).

(** [__add__]: [(a/b) + (c/d) = (ad + bc) / (bd)], a new object. *)
Definition __add__ (self outra_fracao : loc) : M loc :=
  let* sn := get_num self in
  let* od := get_den outra_fracao in
  let* sd := get_den self in
  let* on := get_num outra_fracao in
  let novo_num := sn * od + sd * on in
  let* sd := get_den self in
  let* od := get_den outra_fracao in
  let novo_den := sd * od in
  __init__ novo_num novo_den.

(** [__iadd__]: the same sum written into the receiver, field by field, then
    reduced in place; the value of the call is the receiver. *)
Definition __iadd__ (self outra_fracao : loc) : M loc :=
  (let* sn := get_num self in
   let* od := get_den outra_fracao in
   let* sd := get_den self in
   let* on := get_num outra_fracao in
   set_num self (sn * od + sd * on));;;
  (let* sd := get_den self in
   let* od := get_den outra_fracao in
   set_den self (sd * od));;;
  simplifica self.

(** [__sub__]: [(a/b) - (c/d) = (ad - bc) / (bd)], a new object. *)
Definition __sub__ (self outra_fracao : loc) : M loc :=
  let* sn := get_num self in
  let* od := get_den outra_fracao in
  let* sd := get_den self in
  let* on := get_num outra_fracao in
  let novo_num := sn * od - sd * on in
  let* sd := get_den self in
  let* od := get_den outra_fracao in
  let novo_den := sd * od in
  __init__ novo_num novo_den.

(** [__mul__]: [(a/b) * (c/d) = (ac) / (bd)], a new object. *)
Definition __mul__ (self outra_fracao : loc) : M loc :=
  let* sn := get_num self in
  let* on := get_num outra_fracao in
  let novo_num := sn * on in
  let* sd := get_den self in
  let* od := get_den outra_fracao in
  let novo_den := sd * od in
  __init__ novo_num novo_den.

(** [__truediv__]: [(a/b) / (c/d) = (ad) / (bc)], a new object; raises when
    the numerator of the divisor is zero. *)
Definition __truediv__ (self outra_fracao : loc) : M loc :=
  let* on := get_num outra_fracao in
  if on =? 0 then raise (ValueError msg_div_zero)
  else
    let* sn := get_num self in
    let* od := get_den outra_fracao in
    let novo_num := sn * od in
    let* sd := get_den self in
    let* on := get_num outra_fracao in
    let novo_den := sd * on in
    __init__ novo_num novo_den.

(** [__eq__]: Python's [and] reads the denominators only when the
    numerators agree. *)
Definition __eq__ (self outra_fracao : loc) : M bool :=
  let* sn := get_num self in
  let* on := get_num outra_fracao in
  if sn =? on then
    let* sd := get_den self in
    let* od := get_den outra_fracao in
    ret (sd =? od)
  else ret false.

Definition __lt__ (self outra_fracao : loc) : M bool :=
  let* sn := get_num self in
  let* od := get_den outra_fracao in
  let* on := get_num outra_fracao in
  let* sd := get_den self in
  ret (sn * od <? on * sd).

Definition __gt__ (self outra_fracao : loc) : M bool :=
  let* sn := get_num self in
  let* od := get_den outra_fracao in
  let* on := get_num outra_fracao in
  let* sd := get_den self in
  ret (sn * od >? on * sd).

Definition __le__ (self outra_fracao : loc) : M bool :=
  let* sn := get_num self in
  let* od := get_den outra_fracao in
  let* on := get_num outra_fracao in
  let* sd := get_den self in
  ret (sn * od <=? on * sd).

Definition __ge__ (self outra_fracao : loc) : M bool :=
  let* sn := get_num self in
  let* od := get_den outra_fracao in
  let* on := get_num outra_fracao in
  let* sd := get_den self in
  ret (sn * od >=? on * sd).

(** [__ne__]: [not self == outra_fracao]. *)
Definition __ne__ (self outra_fracao : loc) : M bool :=
  let* r := __eq__ self outra_fracao in
  ret (negb r).

(** ** What the fields denote, and canonical form *)

(** Lowest terms with the sign in the numerator.  The gcd here is the
    library's [Z.gcd], not the loop of the class. *)
Definition canonical (f : Fracao) : Prop :=
  0 < den f /\ Z.gcd (Z.abs (num f)) (den f) = 1.

#[global] Instance canonical_dec (f : Fracao) : Decision (canonical f).
Proof. unfold canonical. apply _. Defined.

(** The rational number a fraction with a positive denominator stands for. *)
Definition value (f : Fracao) : Q := Qmake (num f) (Z.to_pos (den f)).

(** The fields [simplifica] leaves in an object that held [f]. *)
Definition simplified (f : Fracao) : Fracao :=
  let divisor := mdc_loop (Z.abs (num f)) (Z.abs (den f)) in
  if 1 <? divisor then mkFracao (num f / divisor) (den f / divisor) else f.

(** The fields of the object that [Fracao(n, d)] builds. *)
Definition normal (n d : Z) : Fracao :=
  simplified (if d <? 0 then mkFracao (- n) (- d) else mkFracao n d).

(** [m] run on [h] returns a reference to a canonical object. *)
Definition returns_canonical (m : M loc) (h : heap) : Prop :=
  exists l h' f, m h = (Ret l, h') /\ h' !! l = Some f /\ canonical f.

(** [m] run on [h] raises. *)
Definition raises {A} (m : M A) (h : heap) : Prop :=
  exists e h', m h = (Raise e, h').

(** Exactly one of three truth values is [true]. *)
Definition exactly_one (x y z : bool) : bool :=
  match x, y, z with
  | true, false, false | false, true, false | false, false, true => true
  | _, _, _ => false
  end.

(** [m] run on [h] returns a reference to an object with the fields [f]. *)
Definition evaluates (m : M loc) (h : heap) (f : Fracao) : Prop :=
  exists l h', m h = (Ret l, h') /\ h' !! l = Some f.

(** The fields of the objects that [+], [-], [*] and [/] build from operands
    with the fields [fa] and [fb]. *)
Definition add_fields (fa fb : Fracao) : Fracao :=
  normal (num fa * den fb + den fa * num fb) (den fa * den fb).

Definition sub_fields (fa fb : Fracao) : Fracao :=
  normal (num fa * den fb - den fa * num fb) (den fa * den fb).

Definition mul_fields (fa fb : Fracao) : Fracao :=
  normal (num fa * num fb) (den fa * den fb).

Definition div_fields (fa fb : Fracao) : Fracao :=
  normal (num fa * den fb) (den fa * num fb).

(** Whether a string contains the separator that [__str__] writes between
    the two fields. *)
Fixpoint has_slash (s : string) : bool :=
  match s with
  | EmptyString => false
  | String c s' => if Ascii.eqb c "/"%char then true else has_slash s'
  end.

(** The comparison [m] run on [h] answers [True] and leaves the store. *)
Definition holds (m : M bool) (h : heap) : Prop := m h = (Ret true, h).

(** ** Euclid's loop computes the gcd *)

Section Euclid.

Lemma mdc_loop_gcd x y : 0 <= x -> 0 <= y -> mdc_loop x y = Z.gcd x y.
Proof.
  funelim (mdc_loop x y); intros Hx Hy.
  - subst. rewrite Z.gcd_0_r. lia.
  - match goal with IH : _ -> _ -> mdc_loop _ _ = Z.gcd _ _ |- _ =>
      rewrite IH end.
    + rewrite Z.gcd_comm, Z.gcd_mod by assumption. apply Z.gcd_comm.
    + assumption.
    + apply Z.mod_pos_bound. lia.
Qed.

Lemma mdc_loop_abs n d :
  mdc_loop (Z.abs n) (Z.abs d) = Z.gcd n d.
Proof.
  rewrite mdc_loop_gcd by lia. rewrite Z.gcd_abs_l, Z.gcd_abs_r. reflexivity.
Qed.

End Euclid.

(** ** Canonical form: existence and uniqueness *)

Section CanonicalForm.

Lemma canonical_zero f : canonical f -> num f = 0 -> f = mkFracao 0 1.
Proof.
  destruct f as [n d]; unfold canonical; simpl. intros [Hd Hg] ->.
  simpl in Hg. rewrite Z.abs_eq in Hg by lia. congruence.
Qed.

(** Two canonical fractions with equal cross products have equal fields. *)
Lemma canonical_unique a b :
  canonical a -> canonical b ->
  num a * den b = num b * den a -> a = b.
Proof.
  destruct a as [n d], b as [n' d']; unfold canonical; simpl.
  rewrite !Z.gcd_abs_l. intros [Hd Hg] [Hd' Hg'] Hx.
  assert (Hdd : (d | d')).
  { apply Z.gauss with n; [| rewrite Z.gcd_comm; exact Hg].
    exists n'. lia. }
  assert (Hdd' : (d' | d)).
  { apply Z.gauss with n'; [| rewrite Z.gcd_comm; exact Hg'].
    exists n. lia. }
  assert (d = d') by (apply Z.divide_antisym_nonneg; (lia || assumption)).
  subst d'. f_equal. apply Z.mul_cancel_r with d; lia.
Qed.

Lemma simplified_canonical f : 0 < den f -> canonical (simplified f).
Proof.
  destruct f as [n d]; unfold simplified, canonical; simpl. intros Hd.
  rewrite mdc_loop_abs.
  pose proof (Z.gcd_nonneg n d) as Hg0.
  assert (Hg : Z.gcd n d <> 0).
  { intros E. apply Z.gcd_eq_0_r in E. lia. }
  destruct (1 <? Z.gcd n d) eqn:E; simpl.
  - rewrite Z.gcd_abs_l. split.
    + apply Z.div_str_pos. split; [lia |].
      apply Z.divide_pos_le; [assumption | apply Z.gcd_divide_r].
    + apply Z.gcd_div_gcd; [assumption | reflexivity].
  - apply Z.ltb_ge in E. rewrite Z.gcd_abs_l. lia.
Qed.

(** Reduction keeps the rational value. *)
Lemma simplified_value f :
  num (simplified f) * den f = num f * den (simplified f).
Proof.
  destruct f as [n d]; unfold simplified; simpl.
  rewrite mdc_loop_abs.
  destruct (1 <? Z.gcd n d) eqn:E; simpl; [| reflexivity].
  apply Z.ltb_lt in E.
  pose proof (Zdivide_Zdiv_eq (Z.gcd n d) n ltac:(lia) (Z.gcd_divide_l n d)).
  pose proof (Zdivide_Zdiv_eq (Z.gcd n d) d ltac:(lia) (Z.gcd_divide_r n d)).
  nia.
Qed.

Lemma simplified_id f : canonical f -> simplified f = f.
Proof.
  intros Hc. apply canonical_unique; [| assumption |].
  - apply simplified_canonical, Hc.
  - apply simplified_value.
Qed.

Lemma normal_canonical n d : d <> 0 -> canonical (normal n d).
Proof.
  intros Hd. unfold normal. apply simplified_canonical.
  destruct (d <? 0) eqn:E; simpl; [apply Z.ltb_lt in E | apply Z.ltb_ge in E];
    lia.
Qed.

Lemma normal_value n d : num (normal n d) * d = n * den (normal n d).
Proof.
  unfold normal.
  destruct (d <? 0) eqn:E;
    match goal with |- context [simplified ?f] =>
      pose proof (simplified_value f) as H; simpl in H end; lia.
Qed.

(** The constructor gives back a canonical fraction from any pair of
    fields that denotes the same rational. *)
Lemma normal_canonical_eq n d f :
  d <> 0 -> canonical f -> num f * d = n * den f -> normal n d = f.
Proof.
  intros Hd Hf Hx. apply canonical_unique; [apply normal_canonical | |];
    try assumption.
  pose proof (normal_value n d) as Hv.
  apply Z.mul_cancel_r with d; [assumption |].
  replace (num (normal n d) * den f * d)
    with (num (normal n d) * d * den f) by ring.
  replace (num f * den (normal n d) * d)
    with (num f * d * den (normal n d)) by ring.
  rewrite Hv, Hx. ring.
Qed.

End CanonicalForm.

(** ** Running the methods on a store *)

Section Runs.

Implicit Types (h : heap) (l a b : loc) (f : Fracao).

Lemma bind_assoc {A B C} (m : M A) (k : A -> M B) (k' : B -> M C) h :
  bind (bind m k) k' h = bind m (fun x => bind (k x) k') h.
Proof. unfold bind. destruct (m h) as [[x | e] h']; reflexivity. Qed.

Lemma bind_ret {A B} (x : A) (k : A -> M B) h : bind (ret x) k h = k x h.
Proof. reflexivity. Qed.

Lemma bind_run {A B} (m : M A) (k : A -> M B) h x h' :
  m h = (Ret x, h') -> bind m k h = k x h'.
Proof. intros H. unfold bind. rewrite H. reflexivity. Qed.

Lemma bind_get_num {B} h l f (k : Z -> M B) :
  h !! l = Some f -> bind (get_num l) k h = k (num f) h.
Proof. intros H. unfold bind, get_num. rewrite H. reflexivity. Qed.

Lemma bind_get_den {B} h l f (k : Z -> M B) :
  h !! l = Some f -> bind (get_den l) k h = k (den f) h.
Proof. intros H. unfold bind, get_den. rewrite H. reflexivity. Qed.

Lemma bind_set_num {B} h l f v (k : unit -> M B) :
  h !! l = Some f ->
  bind (set_num l v) k h = k tt (<[l := mkFracao v (den f)]> h).
Proof. intros H. unfold bind, set_num. rewrite H. reflexivity. Qed.

Lemma bind_set_den {B} h l f v (k : unit -> M B) :
  h !! l = Some f ->
  bind (set_den l v) k h = k tt (<[l := mkFracao (num f) v]> h).
Proof. intros H. unfold bind, set_den. rewrite H. reflexivity. Qed.

Lemma lookup_written h l f g :
  h !! l = Some f -> <[l := g]> h !! l = Some g.
Proof. intros H. apply list_lookup_insert_eq. eapply lookup_lt_Some, H. Qed.

Lemma lookup_alloc h f : (h ++ [f]) !! length h = Some f.
Proof. apply list_lookup_middle. reflexivity. Qed.

(** [simplifica] overwrites the receiver with its reduced fields. *)
Lemma bind_simplifica {B} h l f (k : loc -> M B) :
  h !! l = Some f ->
  bind (simplifica l) k h = k l (<[l := simplified f]> h).
Proof.
  intros H. unfold simplifica, mdc.
  rewrite !bind_assoc, (bind_get_num _ _ _ _ H).
  rewrite !bind_assoc, (bind_get_den _ _ _ _ H), bind_ret.
  unfold simplified.
  destruct (1 <? mdc_loop (Z.abs (num f)) (Z.abs (den f))).
  - rewrite !bind_assoc, (bind_get_num _ _ _ _ H).
    rewrite (bind_set_num _ _ _ _ _ H).
    pose proof (fun g => lookup_written h l f g H) as H'.
    rewrite !bind_assoc, (bind_get_den _ _ _ _ (H' _)).
    rewrite (bind_set_den _ _ _ _ _ (H' _)). simpl.
    rewrite list_insert_insert_eq. reflexivity.
  - rewrite (list_insert_id _ _ _ H). reflexivity.
Qed.

Lemma simplifica_run h l f :
  h !! l = Some f -> simplifica l h = (Ret l, <[l := simplified f]> h).
Proof.
  intros H. pose proof (bind_simplifica h l f ret H) as E.
  unfold bind in E. destruct (simplifica l h) as [[x | e] h'];
    unfold ret in E; congruence.
Qed.

Lemma insert_alloc h f g : <[length h := g]> (h ++ [f]) = h ++ [g].
Proof.
  rewrite insert_app_r_alt by lia. rewrite Nat.sub_diag. reflexivity.
Qed.

(** The constructor on a non-zero denominator appends the normal form. *)
Lemma bind_init {B} h n d (k : loc -> M B) :
  d <> 0 -> bind (__init__ n d) k h = k (length h) (h ++ [normal n d]).
Proof.
  intros Hd. unfold __init__, normal.
  destruct (Z.eqb_spec d 0) as [| _]; [contradiction |].
  rewrite bind_assoc. unfold bind at 1, alloc at 1.
  pose proof (lookup_alloc h (mkFracao n d)) as H.
  rewrite !bind_assoc, (bind_get_den _ _ _ _ H). simpl.
  destruct (d <? 0).
  - rewrite !bind_assoc, (bind_get_num _ _ _ _ H).
    rewrite (bind_set_num _ _ _ _ _ H). simpl.
    pose proof (fun g => lookup_written _ _ _ g H) as H'.
    rewrite !bind_assoc, (bind_get_den _ _ _ _ (H' _)).
    rewrite (bind_set_den _ _ _ _ _ (H' _)). simpl.
    rewrite list_insert_insert_eq.
    rewrite !bind_assoc, (bind_simplifica _ _ _ _ (H' _)).
    rewrite list_insert_insert_eq, insert_alloc. reflexivity.
  - rewrite bind_ret, !bind_assoc, (bind_simplifica _ _ _ _ H).
    rewrite insert_alloc. reflexivity.
Qed.

Lemma init_run h n d :
  d <> 0 -> __init__ n d h = (Ret (length h), h ++ [normal n d]).
Proof.
  intros Hd. pose proof (bind_init h n d ret Hd) as E.
  unfold bind in E. destruct (__init__ n d h) as [[x | e] h'];
    unfold ret in E; congruence.
Qed.

Lemma init_raise h n :
  __init__ n 0 h = (Raise (ValueError msg_den_zero), h).
Proof. reflexivity. Qed.

(** The arithmetic methods hand their cross products to the constructor. *)
Lemma add_run h a b fa fb :
  h !! a = Some fa -> h !! b = Some fb ->
  __add__ a b h =
  __init__ (num fa * den fb + den fa * num fb) (den fa * den fb) h.
Proof.
  intros Ha Hb. unfold __add__.
  rewrite (bind_get_num _ _ _ _ Ha), (bind_get_den _ _ _ _ Hb).
  rewrite (bind_get_den _ _ _ _ Ha), (bind_get_num _ _ _ _ Hb).
  rewrite (bind_get_den _ _ _ _ Ha), (bind_get_den _ _ _ _ Hb).
  reflexivity.
Qed.

Lemma sub_run h a b fa fb :
  h !! a = Some fa -> h !! b = Some fb ->
  __sub__ a b h =
  __init__ (num fa * den fb - den fa * num fb) (den fa * den fb) h.
Proof.
  intros Ha Hb. unfold __sub__.
  rewrite (bind_get_num _ _ _ _ Ha), (bind_get_den _ _ _ _ Hb).
  rewrite (bind_get_den _ _ _ _ Ha), (bind_get_num _ _ _ _ Hb).
  rewrite (bind_get_den _ _ _ _ Ha), (bind_get_den _ _ _ _ Hb).
  reflexivity.
Qed.

Lemma mul_run h a b fa fb :
  h !! a = Some fa -> h !! b = Some fb ->
  __mul__ a b h = __init__ (num fa * num fb) (den fa * den fb) h.
Proof.
  intros Ha Hb. unfold __mul__.
  rewrite (bind_get_num _ _ _ _ Ha), (bind_get_num _ _ _ _ Hb).
  rewrite (bind_get_den _ _ _ _ Ha), (bind_get_den _ _ _ _ Hb).
  reflexivity.
Qed.

Lemma truediv_run h a b fa fb :
  h !! a = Some fa -> h !! b = Some fb ->
  __truediv__ a b h =
  if num fb =? 0 then (Raise (ValueError msg_div_zero), h)
  else __init__ (num fa * den fb) (den fa * num fb) h.
Proof.
  intros Ha Hb. unfold __truediv__.
  rewrite (bind_get_num _ _ _ _ Hb).
  destruct (num fb =? 0); [reflexivity |].
  rewrite (bind_get_num _ _ _ _ Ha), (bind_get_den _ _ _ _ Hb).
  rewrite (bind_get_den _ _ _ _ Ha), (bind_get_num _ _ _ _ Hb).
  reflexivity.
Qed.

(** [__iadd__] writes the same cross products into the receiver.  The two
    operands may be one object: the numerator is written first, and the
    denominator of the other operand is read after that write. *)
Lemma iadd_run h a b fa fb :
  h !! a = Some fa -> h !! b = Some fb ->
  __iadd__ a b h =
  (Ret a,
   <[a := simplified (mkFracao (num fa * den fb + den fa * num fb)
                               (den fa * den fb))]> h).
Proof.
  intros Ha Hb. unfold __iadd__.
  rewrite !bind_assoc, (bind_get_num _ _ _ _ Ha).
  rewrite !bind_assoc, (bind_get_den _ _ _ _ Hb).
  rewrite !bind_assoc, (bind_get_den _ _ _ _ Ha).
  rewrite !bind_assoc, (bind_get_num _ _ _ _ Hb).
  rewrite (bind_set_num _ _ _ _ _ Ha).
  pose proof (fun g => lookup_written _ _ _ g Ha) as Ha'.
  assert (Hb' : exists fb',
    <[a := mkFracao (num fa * den fb + den fa * num fb) (den fa)]> h !! b
      = Some fb' /\ den fb' = den fb).
  { destruct (decide (a = b)) as [-> | Hne].
    - eexists; split; [apply Ha' |]. simpl. congruence.
    - exists fb. rewrite list_lookup_insert_ne by assumption. auto. }
  destruct Hb' as (fb' & Hb' & Hden).
  rewrite !bind_assoc, (bind_get_den _ _ _ _ (Ha' _)).
  rewrite !bind_assoc, (bind_get_den _ _ _ _ Hb'), Hden.
  rewrite (bind_set_den _ _ _ _ _ (Ha' _)). simpl.
  rewrite list_insert_insert_eq.
  rewrite (simplifica_run _ _ _ (Ha' _)).
  rewrite list_insert_insert_eq. reflexivity.
Qed.

(** The comparisons and [__str__] only read. *)
Lemma eq_run h a b fa fb :
  h !! a = Some fa -> h !! b = Some fb ->
  __eq__ a b h = (Ret ((num fa =? num fb) && (den fa =? den fb)), h).
Proof.
  intros Ha Hb. unfold __eq__.
  rewrite (bind_get_num _ _ _ _ Ha), (bind_get_num _ _ _ _ Hb).
  destruct (num fa =? num fb); [| reflexivity].
  rewrite (bind_get_den _ _ _ _ Ha), (bind_get_den _ _ _ _ Hb).
  reflexivity.
Qed.

Lemma ne_run h a b fa fb :
  h !! a = Some fa -> h !! b = Some fb ->
  __ne__ a b h =
  (Ret (negb ((num fa =? num fb) && (den fa =? den fb))), h).
Proof.
  intros Ha Hb. unfold __ne__, bind. rewrite (eq_run _ _ _ _ _ Ha Hb).
  reflexivity.
Qed.

Lemma lt_run h a b fa fb :
  h !! a = Some fa -> h !! b = Some fb ->
  __lt__ a b h = (Ret (num fa * den fb <? num fb * den fa), h).
Proof.
  intros Ha Hb. unfold __lt__.
  rewrite (bind_get_num _ _ _ _ Ha), (bind_get_den _ _ _ _ Hb).
  rewrite (bind_get_num _ _ _ _ Hb), (bind_get_den _ _ _ _ Ha).
  reflexivity.
Qed.

Lemma gt_run h a b fa fb :
  h !! a = Some fa -> h !! b = Some fb ->
  __gt__ a b h = (Ret (num fa * den fb >? num fb * den fa), h).
Proof.
  intros Ha Hb. unfold __gt__.
  rewrite (bind_get_num _ _ _ _ Ha), (bind_get_den _ _ _ _ Hb).
  rewrite (bind_get_num _ _ _ _ Hb), (bind_get_den _ _ _ _ Ha).
  reflexivity.
Qed.

Lemma le_run h a b fa fb :
  h !! a = Some fa -> h !! b = Some fb ->
  __le__ a b h = (Ret (num fa * den fb <=? num fb * den fa), h).
Proof.
  intros Ha Hb. unfold __le__.
  rewrite (bind_get_num _ _ _ _ Ha), (bind_get_den _ _ _ _ Hb).
  rewrite (bind_get_num _ _ _ _ Hb), (bind_get_den _ _ _ _ Ha).
  reflexivity.
Qed.

Lemma ge_run h a b fa fb :
  h !! a = Some fa -> h !! b = Some fb ->
  __ge__ a b h = (Ret (num fa * den fb >=? num fb * den fa), h).
Proof.
  intros Ha Hb. unfold __ge__.
  rewrite (bind_get_num _ _ _ _ Ha), (bind_get_den _ _ _ _ Hb).
  rewrite (bind_get_num _ _ _ _ Hb), (bind_get_den _ _ _ _ Ha).
  reflexivity.
Qed.

Lemma str_run h a fa :
  h !! a = Some fa ->
  __str__ a h =
  (Ret (if num fa =? 0 then "0"%string
        else if den fa =? 1 then pretty (num fa)
        else pretty (num fa) +:+ "/" +:+ pretty (den fa)), h).
Proof.
  intros Ha. unfold __str__.
  rewrite (bind_get_num _ _ _ _ Ha).
  destruct (num fa =? 0); [reflexivity |].
  rewrite (bind_get_den _ _ _ _ Ha).
  destruct (den fa =? 1).
  - rewrite (bind_get_num _ _ _ _ Ha). reflexivity.
  - rewrite (bind_get_num _ _ _ _ Ha), (bind_get_den _ _ _ _ Ha).
    reflexivity.
Qed.

(** Objects already in the store stay where they are when one is added. *)
Lemma lookup_kept h l f g : h !! l = Some f -> (h ++ [g]) !! l = Some f.
Proof. apply lookup_app_l_Some. Qed.

End Runs.

(** ** Cross products and the rationals *)

Section Values.

Implicit Types (f : Fracao).

Lemma value_den f : 0 < den f -> QDen (value f) = den f.
Proof. intros H. unfold value. simpl. apply Z2Pos.id, H. Qed.

(** With positive denominators, comparing cross products is comparing the
    rationals: clearing the denominators does not flip the sign. *)
Lemma value_lt fa fb :
  0 < den fa -> 0 < den fb ->
  (value fa < value fb)%Q <-> num fa * den fb < num fb * den fa.
Proof.
  intros Ha Hb. unfold Qlt. rewrite !value_den by assumption.
  reflexivity.
Qed.

Lemma value_le fa fb :
  0 < den fa -> 0 < den fb ->
  (value fa <= value fb)%Q <-> num fa * den fb <= num fb * den fa.
Proof.
  intros Ha Hb. unfold Qle. rewrite !value_den by assumption.
  reflexivity.
Qed.

Lemma value_eq fa fb :
  0 < den fa -> 0 < den fb ->
  (value fa == value fb)%Q <-> num fa * den fb = num fb * den fa.
Proof.
  intros Ha Hb. unfold Qeq. rewrite !value_den by assumption.
  reflexivity.
Qed.

(** A fraction whose cross product with [x/y] vanishes stands for the
    quotient of the integers [x] and [y]. *)
Lemma value_quotient f x y :
  0 < den f -> y <> 0 -> num f * y = x * den f ->
  (value f == inject_Z x / inject_Z y)%Q.
Proof.
  intros Hf Hy Hx. unfold Qeq, Qdiv, Qmult, Qinv, inject_Z.
  rewrite value_den by assumption. simpl Qnum at 1.
  destruct y as [| p | p]; [contradiction | |]; simpl; lia.
Qed.

End Values.

(** ** Contracts of the class *)

(** C1.  Construction with a non-zero denominator, and each of [+], [-],
    [*], [/] (on a divisor with a non-zero numerator) and [+=] applied to
    canonical operands, ends with an object whose denominator is positive
    and whose fields are coprime: the new object for the first five, the
    receiver for [+=].  A canonical object with numerator zero is [0/1], and
    that is what construction from a zero numerator stores. *)
Theorem canonical_after_every_operation
    (h : heap) (a b : loc) (fa fb : Fracao) (n d : Z) :
  d <> 0 ->
  h !! a = Some fa -> h !! b = Some fb ->
  canonical fa -> canonical fb ->
  returns_canonical (__init__ n d) h /\
  returns_canonical (__add__ a b) h /\
  returns_canonical (__sub__ a b) h /\
  returns_canonical (__mul__ a b) h /\
  (num fb <> 0 -> returns_canonical (__truediv__ a b) h) /\
  (exists h' f,
     __iadd__ a b h = (Ret a, h') /\ h' !! a = Some f /\ canonical f) /\
  (forall f, canonical f -> num f = 0 -> f = mkFracao 0 1) /\
  (exists h',
     __init__ 0 d h = (Ret (length h), h') /\
     h' !! length h = Some (mkFracao 0 1)).
Proof.
  intros Hd Ha Hb [Hpa Hga] [Hpb Hgb].
  assert (Hdd : den fa * den fb <> 0) by nia.
  assert (Hnew : forall x y, y <> 0 -> returns_canonical (__init__ x y) h).
  { intros x y Hy. exists (length h), (h ++ [normal x y]), (normal x y).
    split; [apply init_run, Hy |].
    split; [apply lookup_alloc | apply normal_canonical, Hy]. }
  repeat split.
  - apply Hnew, Hd.
  - unfold returns_canonical. rewrite (add_run _ _ _ _ _ Ha Hb).
    apply Hnew, Hdd.
  - unfold returns_canonical. rewrite (sub_run _ _ _ _ _ Ha Hb).
    apply Hnew, Hdd.
  - unfold returns_canonical. rewrite (mul_run _ _ _ _ _ Ha Hb).
    apply Hnew, Hdd.
  - intros Hnb. unfold returns_canonical.
    rewrite (truediv_run _ _ _ _ _ Ha Hb).
    destruct (Z.eqb_spec (num fb) 0); [contradiction |].
    apply Hnew. nia.
  - eexists _, _. split; [apply (iadd_run _ _ _ _ _ Ha Hb) |].
    split; [eapply lookup_written, Ha |].
    apply simplified_canonical. simpl. nia.
  - apply canonical_zero.
  - exists (h ++ [normal 0 d]). split; [apply init_run, Hd |].
    rewrite lookup_alloc. f_equal.
    apply canonical_zero; [apply normal_canonical, Hd |].
    pose proof (normal_value 0 d). nia.
Qed.

Lemma canonical_after_every_operation_witness :
  let h := [mkFracao 1 2; mkFracao (-1) 4] in
  returns_canonical (__init__ 5 (-10)) h /\
  returns_canonical (__add__ 0%nat 1%nat) h /\
  returns_canonical (__sub__ 0%nat 1%nat) h /\
  returns_canonical (__mul__ 0%nat 1%nat) h /\
  (-1 <> 0 -> returns_canonical (__truediv__ 0%nat 1%nat) h) /\
  (exists h' f,
     __iadd__ 0%nat 1%nat h = (Ret 0%nat, h') /\
     h' !! 0%nat = Some f /\ canonical f) /\
  (forall f, canonical f -> num f = 0 -> f = mkFracao 0 1) /\
  (exists h',
     __init__ 0 (-10) h = (Ret 2%nat, h') /\
     h' !! 2%nat = Some (mkFracao 0 1)).
Proof.
  apply (canonical_after_every_operation
           [mkFracao 1 2; mkFracao (-1) 4] 0%nat 1%nat
           (mkFracao 1 2) (mkFracao (-1) 4) 5 (-10)).
  - lia.
  - reflexivity.
  - reflexivity.
  - split; reflexivity.
  - split; reflexivity.
Defined.

(** C2.  On canonical operands [==] answers whether the fields agree, the
    fields agree exactly when the cross products do, and [!=] answers the
    opposite of [==].  [Fracao(1,2) == Fracao(5,10)] and
    [Fracao(1,2) != Fracao(1,4)] are both true, in any store. *)
Theorem eq_decides_numeric_equality
    (h : heap) (a b : loc) (fa fb : Fracao) :
  h !! a = Some fa -> h !! b = Some fb ->
  canonical fa -> canonical fb ->
  exists r,
    __eq__ a b h = (Ret r, h) /\
    (r = true <-> num fa = num fb /\ den fa = den fb) /\
    (num fa = num fb /\ den fa = den fb <->
     num fa * den fb = num fb * den fa) /\
    __ne__ a b h = (Ret (negb r), h) /\
    (forall h0, exists h',
       (let* x := __init__ 1 2 in
        let* y := __init__ 5 10 in __eq__ x y) h0 = (Ret true, h')) /\
    (forall h0, exists h',
       (let* x := __init__ 1 2 in
        let* y := __init__ 1 4 in __ne__ x y) h0 = (Ret true, h')).
Proof.
  intros Ha Hb Hca Hcb.
  exists ((num fa =? num fb) && (den fa =? den fb)).
  split; [apply (eq_run _ _ _ _ _ Ha Hb) |].
  split; [rewrite andb_true_iff, !Z.eqb_eq; reflexivity |].
  split.
  { split.
    - intros [-> ->]. reflexivity.
    - intros Hx. pose proof (canonical_unique fa fb Hca Hcb Hx). subst fb.
      auto. }
  split; [apply (ne_run _ _ _ _ _ Ha Hb) |].
  split; intros h0; eexists.
  - rewrite bind_init by lia. rewrite bind_init by lia.
    erewrite eq_run;
      [| apply lookup_kept, lookup_alloc | apply lookup_alloc].
    reflexivity.
  - rewrite bind_init by lia. rewrite bind_init by lia.
    erewrite ne_run;
      [| apply lookup_kept, lookup_alloc | apply lookup_alloc].
    reflexivity.
Qed.

Lemma eq_decides_numeric_equality_witness :
  exists r,
    __eq__ 0%nat 1%nat [mkFracao 1 2; mkFracao (-3) 4] =
      (Ret r, [mkFracao 1 2; mkFracao (-3) 4]) /\
    r = false.
Proof.
  destruct (eq_decides_numeric_equality
              [mkFracao 1 2; mkFracao (-3) 4] 0%nat 1%nat
              (mkFracao 1 2) (mkFracao (-3) 4))
    as (r & Hr & _).
  - reflexivity.
  - reflexivity.
  - split; reflexivity.
  - split; reflexivity.
  - exists r. split; [exact Hr |].
    vm_compute in Hr. congruence.
Defined.

(** C3.  [Fracao(n, d)] raises exactly when [d] is zero, whatever [n] is.
    It then raises [ValueError] and leaves the store as it found it.  For
    any other [d] it returns a new object, which is canonical. *)
Theorem init_raises_iff_zero_den (h : heap) (n d : Z) :
  (raises (__init__ n d) h <-> d = 0) /\
  (d = 0 -> __init__ n d h = (Raise (ValueError msg_den_zero), h)) /\
  (d <> 0 ->
   exists f,
     __init__ n d h = (Ret (length h), h ++ [f]) /\ canonical f).
Proof.
  assert (Hz : d = 0 -> __init__ n d h = (Raise (ValueError msg_den_zero), h)).
  { intros ->. apply init_raise. }
  assert (Hnz : d <> 0 ->
    exists f, __init__ n d h = (Ret (length h), h ++ [f]) /\ canonical f).
  { intros Hd. exists (normal n d).
    split; [apply init_run, Hd | apply normal_canonical, Hd]. }
  repeat split; try assumption.
  - intros (e & h' & He). destruct (Z.eq_dec d 0) as [| Hd]; [assumption |].
    destruct (Hnz Hd) as (f & Hf & _). congruence.
  - intros Hd. exists (ValueError msg_den_zero), h. apply Hz, Hd.
Qed.

Lemma init_raises_iff_zero_den_witness :
  __init__ 7 0 [mkFracao 1 2] =
    (Raise (ValueError msg_den_zero), [mkFracao 1 2]) /\
  exists f,
    __init__ 6 (-4) [mkFracao 1 2] = (Ret 1%nat, [mkFracao 1 2] ++ [f]) /\
    canonical f.
Proof.
  destruct (init_raises_iff_zero_den [mkFracao 1 2] 7 0) as (_ & Hz & _).
  destruct (init_raises_iff_zero_den [mkFracao 1 2] 6 (-4)) as (_ & _ & Hnz).
  split; [apply Hz; reflexivity | apply Hnz; lia].
Defined.

(** C4.  On canonical operands [a / b] raises exactly when the numerator of
    [b] is zero; it then raises [ValueError] and the store, so both
    operands, is as before.  Otherwise the value of the call is a new
    object, canonical, standing for [(a.num*b.den) / (a.den*b.num)], and the
    objects that were there are kept. *)
Theorem truediv_raises_iff_zero_divisor
    (h : heap) (a b : loc) (fa fb : Fracao) :
  h !! a = Some fa -> h !! b = Some fb ->
  canonical fa -> canonical fb ->
  (raises (__truediv__ a b) h <-> num fb = 0) /\
  (num fb = 0 ->
   __truediv__ a b h = (Raise (ValueError msg_div_zero), h)) /\
  (num fb <> 0 ->
   exists f,
     __truediv__ a b h = (Ret (length h), h ++ [f]) /\
     canonical f /\
     num f * (den fa * num fb) = num fa * den fb * den f /\
     (value f == inject_Z (num fa * den fb) / inject_Z (den fa * num fb))%Q /\
     (h ++ [f]) !! a = Some fa /\ (h ++ [f]) !! b = Some fb).
Proof.
  intros Ha Hb [Hpa Hga] Hcb.
  pose proof (truediv_run _ _ _ _ _ Ha Hb) as Hrun.
  assert (Hz : num fb = 0 ->
    __truediv__ a b h = (Raise (ValueError msg_div_zero), h)).
  { intros E. rewrite Hrun, E. reflexivity. }
  assert (Hnz : num fb <> 0 ->
    __truediv__ a b h =
    (Ret (length h), h ++ [normal (num fa * den fb) (den fa * num fb)])).
  { intros E. rewrite Hrun.
    destruct (Z.eqb_spec (num fb) 0); [contradiction |].
    apply init_run. nia. }
  split; [split |].
  - intros (e & h' & He). destruct (Z.eq_dec (num fb) 0) as [| E];
      [assumption |]. rewrite (Hnz E) in He. discriminate.
  - intros E. eexists _, _. apply Hz, E.
  - split; [exact Hz |]. intros E.
    assert (Hd : den fa * num fb <> 0) by nia.
    pose proof (normal_canonical (num fa * den fb) _ Hd) as Hc.
    pose proof (normal_value (num fa * den fb) (den fa * num fb)) as Hv.
    eexists. split; [apply Hnz, E |].
    repeat split; try apply Hc; try assumption.
    + apply value_quotient; [apply Hc | assumption | assumption].
    + apply lookup_kept, Ha.
    + apply lookup_kept, Hb.
Qed.

Lemma truediv_raises_iff_zero_divisor_witness :
  let h := [mkFracao 3 4; mkFracao 0 1; mkFracao (-1) 4] in
  __truediv__ 0%nat 1%nat h = (Raise (ValueError msg_div_zero), h) /\
  exists f, __truediv__ 0%nat 2%nat h = (Ret 3%nat, h ++ [f]) /\ canonical f.
Proof.
  intros h. split.
  - apply (truediv_raises_iff_zero_divisor h 0%nat 1%nat
             (mkFracao 3 4) (mkFracao 0 1));
      [reflexivity | reflexivity | split; reflexivity | split; reflexivity
      | reflexivity].
  - destruct (truediv_raises_iff_zero_divisor h 0%nat 2%nat
                (mkFracao 3 4) (mkFracao (-1) 4))
      as (_ & _ & Hnz);
      [reflexivity | reflexivity | split; reflexivity | split; reflexivity |].
    destruct Hnz as (f & Hf & Hc & _); [simpl; lia |].
    exists f. split; assumption.
Defined.

(** C5.  On canonical operands exactly one of [a < b], [a == b], [a > b] is
    true, and [a <= b] is the disjunction of the first two.  The order
    comparisons are the comparisons of the cross products
    [a.num*b.den] and [b.num*a.den], which order the operands as rationals
    because both denominators are positive.  None of them changes the
    store. *)
Theorem ordering_total_and_consistent
    (h : heap) (a b : loc) (fa fb : Fracao) :
  h !! a = Some fa -> h !! b = Some fb ->
  canonical fa -> canonical fb ->
  exists rlt req rgt rle,
    __lt__ a b h = (Ret rlt, h) /\
    __eq__ a b h = (Ret req, h) /\
    __gt__ a b h = (Ret rgt, h) /\
    __le__ a b h = (Ret rle, h) /\
    exactly_one rlt req rgt = true /\
    rle = rlt || req /\
    rlt = (num fa * den fb <? num fb * den fa) /\
    rgt = (num fa * den fb >? num fb * den fa) /\
    rle = (num fa * den fb <=? num fb * den fa) /\
    (rlt = true <-> (value fa < value fb)%Q) /\
    (rgt = true <-> (value fb < value fa)%Q) /\
    (rle = true <-> (value fa <= value fb)%Q).
Proof.
  intros Ha Hb Hca Hcb.
  pose proof Hca as [Hpa _]. pose proof Hcb as [Hpb _].
  eexists _, _, _, _.
  split; [apply (lt_run _ _ _ _ _ Ha Hb) |].
  split; [apply (eq_run _ _ _ _ _ Ha Hb) |].
  split; [apply (gt_run _ _ _ _ _ Ha Hb) |].
  split; [apply (le_run _ _ _ _ _ Ha Hb) |].
  assert (Heq : (num fa =? num fb) && (den fa =? den fb) =
                (num fa * den fb =? num fb * den fa)).
  { apply eq_true_iff_eq.
    rewrite andb_true_iff, !Z.eqb_eq. split.
    - intros [-> ->]. reflexivity.
    - intros Hx. pose proof (canonical_unique fa fb Hca Hcb Hx). subst fb.
      auto. }
  rewrite Heq.
  rewrite value_lt, value_lt, value_le by assumption.
  rewrite Z.gtb_ltb, !Z.ltb_lt, Z.leb_le.
  repeat split; try lia.
  destruct (Z.ltb_spec (num fa * den fb) (num fb * den fa)),
           (Z.eqb_spec (num fa * den fb) (num fb * den fa)),
           (Z.ltb_spec (num fb * den fa) (num fa * den fb));
    (reflexivity || lia).
Qed.

Lemma ordering_total_and_consistent_witness :
  let h := [mkFracao 1 4; mkFracao 1 2] in
  __lt__ 0%nat 1%nat h = (Ret true, h) /\
  __eq__ 0%nat 1%nat h = (Ret false, h) /\
  __gt__ 0%nat 1%nat h = (Ret false, h) /\
  __le__ 0%nat 1%nat h = (Ret true, h).
Proof.
  intros h.
  destruct (ordering_total_and_consistent h 0%nat 1%nat
              (mkFracao 1 4) (mkFracao 1 2))
    as (rlt & req & rgt & rle & Hlt & Heq & Hgt & Hle & _);
    [reflexivity | reflexivity | split; reflexivity | split; reflexivity |].
  rewrite Hlt, Heq, Hgt, Hle.
  vm_compute in Hlt, Heq, Hgt, Hle.
  repeat split; congruence.
Defined.

(** C6.  On canonical operands [a += b] does not raise, its value is the
    receiver [a] itself, and the store afterwards is the store before with
    the fields of [a] replaced by the fields of the object that [a + b]
    would have built from the state before: no object is added, and every
    object other than [a] is as it was.  The operands may be one object. *)
Theorem iadd_is_add_in_place
    (h : heap) (a b : loc) (fa fb : Fracao) :
  h !! a = Some fa -> h !! b = Some fb ->
  canonical fa -> canonical fb ->
  exists f,
    __add__ a b h = (Ret (length h), h ++ [f]) /\
    __iadd__ a b h = (Ret a, <[a := f]> h) /\
    <[a := f]> h !! a = Some f /\
    length (<[a := f]> h) = length h /\
    (forall l, l <> a -> <[a := f]> h !! l = h !! l).
Proof.
  intros Ha Hb [Hpa _] [Hpb _].
  assert (Hd : 0 < den fa * den fb) by nia.
  exists (normal (num fa * den fb + den fa * num fb) (den fa * den fb)).
  split; [rewrite (add_run _ _ _ _ _ Ha Hb); apply init_run; lia |].
  split.
  { rewrite (iadd_run _ _ _ _ _ Ha Hb). unfold normal.
    destruct (Z.ltb_spec (den fa * den fb) 0); [lia | reflexivity]. }
  split; [eapply lookup_written, Ha |].
  split; [apply length_insert |].
  intros l Hl. apply list_lookup_insert_ne. congruence.
Qed.

Lemma iadd_is_add_in_place_witness :
  let h := [mkFracao 1 2; mkFracao 1 4] in
  __add__ 0%nat 1%nat h = (Ret 2%nat, h ++ [mkFracao 3 4]) /\
  __iadd__ 0%nat 1%nat h = (Ret 0%nat, [mkFracao 3 4; mkFracao 1 4]) /\
  __iadd__ 1%nat 1%nat h = (Ret 1%nat, [mkFracao 1 2; mkFracao 1 2]).
Proof.
  intros h.
  destruct (iadd_is_add_in_place h 0%nat 1%nat (mkFracao 1 2) (mkFracao 1 4))
    as (f & Hadd & Hiadd & _);
    [reflexivity | reflexivity | split; reflexivity | split; reflexivity |].
  destruct (iadd_is_add_in_place h 1%nat 1%nat (mkFracao 1 4) (mkFracao 1 4))
    as (g & Hadd' & Hiadd' & _);
    [reflexivity | reflexivity | split; reflexivity | split; reflexivity |].
  rewrite Hadd, Hiadd, Hiadd'.
  vm_compute in Hadd, Hadd'.
  assert (f = mkFracao 3 4) as -> by congruence.
  assert (g = mkFracao 1 2) as -> by congruence.
  repeat split.
Defined.

(** C7.  [str] of a canonical object is ["0"] when the numerator is zero,
    the numerator alone when the denominator is one, and the numerator, a
    slash and the denominator otherwise; the store is not changed.
    [Fracao(1,-2)] prints as ["-1/2"], [Fracao(5,10)] as ["1/2"] and
    [Fracao(8,4)] as ["2"]. *)
Theorem str_of_canonical (h : heap) (a : loc) (fa : Fracao) :
  h !! a = Some fa -> canonical fa ->
  exists s,
    __str__ a h = (Ret s, h) /\
    (num fa = 0 -> s = "0"%string) /\
    (den fa = 1 -> s = pretty (num fa)) /\
    (num fa <> 0 -> den fa <> 1 ->
     s = pretty (num fa) +:+ "/" +:+ pretty (den fa)) /\
    (den fa <> 1 -> num fa <> 0) /\
    (forall h0,
       (let* x := __init__ 1 (-2) in __str__ x) h0 =
       (Ret "-1/2"%string, h0 ++ [mkFracao (-1) 2])) /\
    (forall h0,
       (let* x := __init__ 5 10 in __str__ x) h0 =
       (Ret "1/2"%string, h0 ++ [mkFracao 1 2])) /\
    (forall h0,
       (let* x := __init__ 8 4 in __str__ x) h0 =
       (Ret "2"%string, h0 ++ [mkFracao 2 1])).
Proof.
  intros Ha Hc. eexists. split; [apply (str_run _ _ _ Ha) |].
  split; [intros ->; reflexivity |].
  split.
  { intros E. rewrite E. destruct (Z.eqb_spec (num fa) 0) as [-> |];
      reflexivity. }
  split.
  { intros Hn Hd.
    destruct (Z.eqb_spec (num fa) 0); [contradiction |].
    destruct (Z.eqb_spec (den fa) 1); [contradiction | reflexivity]. }
  split.
  { intros Hd Hn. apply Hd. rewrite (canonical_zero fa Hc Hn). reflexivity. }
  repeat split; intros h0; rewrite bind_init by lia;
    rewrite (str_run _ _ _ (lookup_alloc _ _)); reflexivity.
Qed.

Lemma str_of_canonical_witness :
  __str__ 0%nat [mkFracao (-7) 3] = (Ret "-7/3"%string, [mkFracao (-7) 3]).
Proof.
  destruct (str_of_canonical [mkFracao (-7) 3] 0%nat (mkFracao (-7) 3))
    as (s & Hs & _ & _ & Hfrac & _);
    [reflexivity | split; reflexivity |].
  rewrite Hs. f_equal. f_equal. apply Hfrac; simpl; lia.
Defined.

(** C8.  The arithmetic of the demonstration block, from any store: with
    [f1 = Fracao(1,2)] and [f2 = Fracao(1,4)], [f1 + f2] prints as ["3/4"],
    [f1 - f2] as ["1/4"], [(f1 + f2) * f2] as ["3/16"] and
    [(f1 + f2) / f2] as ["3"]. *)
Theorem demo_arithmetic (h0 : heap) :
  exists h',
    (let* f_1_2 := __init__ 1 2 in
     let* f_1_4 := __init__ 1 4 in
     let* f_soma := __add__ f_1_2 f_1_4 in
     let* f_sub := __sub__ f_1_2 f_1_4 in
     let* f_mul := __mul__ f_soma f_1_4 in
     let* f_div := __truediv__ f_soma f_1_4 in
     let* s_soma := __str__ f_soma in
     let* s_sub := __str__ f_sub in
     let* s_mul := __str__ f_mul in
     let* s_div := __str__ f_div in
     ret (s_soma, s_sub, s_mul, s_div)) h0 =
    (Ret ("3/4", "1/4", "3/16", "3")%string, h').
Proof.
  eexists.
  rewrite bind_init by lia. rewrite bind_init by lia.
  change (normal 1 2) with (mkFracao 1 2).
  change (normal 1 4) with (mkFracao 1 4).
  erewrite bind_run;
    [| erewrite add_run by (repeat first [apply lookup_alloc | apply lookup_kept]);
       apply init_run; simpl; lia].
  erewrite bind_run;
    [| erewrite sub_run by (repeat first [apply lookup_alloc | apply lookup_kept]);
       apply init_run; simpl; lia].
  simpl num; simpl den.
  change (normal (1 * 4 + 2 * 1) (2 * 4)) with (mkFracao 3 4).
  change (normal (1 * 4 - 2 * 1) (2 * 4)) with (mkFracao 1 4).
  erewrite bind_run;
    [| erewrite mul_run by (repeat first [apply lookup_alloc | apply lookup_kept]);
       apply init_run; simpl; lia].
  erewrite bind_run;
    [| erewrite truediv_run
         by (repeat first [apply lookup_alloc | apply lookup_kept]);
       simpl; apply init_run; lia].
  simpl num; simpl den.
  change (normal (3 * 1) (4 * 4)) with (mkFracao 3 16).
  change (normal (3 * 4) (4 * 1)) with (mkFracao 3 1).
  do 4 (erewrite bind_run;
    [| apply str_run; repeat first [apply lookup_alloc | apply lookup_kept]]).
  reflexivity.
Qed.

(** C9.  On canonical operands [a + b] and [b + a] build objects with the
    same fields, and [==] on the two is true. *)
Theorem add_commutes (h : heap) (a b : loc) (fa fb : Fracao) :
  h !! a = Some fa -> h !! b = Some fb ->
  canonical fa -> canonical fb ->
  exists x y f h',
    (let* x := __add__ a b in
     let* y := __add__ b a in ret (x, y)) h = (Ret (x, y), h') /\
    h' !! x = Some f /\ h' !! y = Some f /\
    __eq__ x y h' = (Ret true, h').
Proof.
  intros Ha Hb [Hpa _] [Hpb _].
  assert (Hd : den fa * den fb <> 0) by nia.
  assert (Hd' : den fb * den fa <> 0) by nia.
  set (f := normal (num fa * den fb + den fa * num fb) (den fa * den fb)).
  assert (Hf : normal (num fb * den fa + den fb * num fa) (den fb * den fa)
               = f).
  { unfold f. f_equal; ring. }
  exists (length h), (length (h ++ [f])), f, ((h ++ [f]) ++ [f]).
  assert (Hx : ((h ++ [f]) ++ [f]) !! length h = Some f)
    by apply lookup_kept, lookup_alloc.
  assert (Hy : ((h ++ [f]) ++ [f]) !! length (h ++ [f]) = Some f)
    by apply lookup_alloc.
  split.
  { erewrite bind_run;
      [| rewrite (add_run _ _ _ _ _ Ha Hb); apply init_run, Hd].
    erewrite bind_run;
      [| rewrite (add_run _ _ _ _ _ (lookup_kept _ _ _ _ Hb)
                    (lookup_kept _ _ _ _ Ha));
         apply init_run, Hd'].
    rewrite Hf. reflexivity. }
  split; [exact Hx |]. split; [exact Hy |].
  rewrite (eq_run _ _ _ _ _ Hx Hy), !Z.eqb_refl. reflexivity.
Qed.

Lemma add_commutes_witness :
  let h := [mkFracao 1 2; mkFracao (-1) 3] in
  exists x y h',
    (let* x := __add__ 0%nat 1%nat in
     let* y := __add__ 1%nat 0%nat in ret (x, y)) h = (Ret (x, y), h') /\
    __eq__ x y h' = (Ret true, h').
Proof.
  intros h.
  destruct (add_commutes h 0%nat 1%nat (mkFracao 1 2) (mkFracao (-1) 3))
    as (x & y & f & h' & Hrun & _ & _ & Heq);
    [reflexivity | reflexivity | split; reflexivity | split; reflexivity |].
  exists x, y, h'. split; assumption.
Defined.

(** C10.  On canonical operands, when the numerator of [b] is not zero,
    [(a / b) * b] is a new object with the very fields of [a], so [==]
    between it and [a] is true. *)
Theorem mul_undoes_truediv (h : heap) (a b : loc) (fa fb : Fracao) :
  h !! a = Some fa -> h !! b = Some fb ->
  canonical fa -> canonical fb ->
  num fb <> 0 ->
  exists r h',
    (let* q := __truediv__ a b in __mul__ q b) h = (Ret r, h') /\
    h' !! r = Some fa /\
    h' !! a = Some fa /\
    __eq__ r a h' = (Ret true, h').
Proof.
  intros Ha Hb Hca Hcb Hnb.
  pose proof Hca as [Hpa _]. pose proof Hcb as [Hpb _].
  assert (Hd : den fa * num fb <> 0) by nia.
  set (q := normal (num fa * den fb) (den fa * num fb)).
  pose proof (normal_canonical (num fa * den fb) _ Hd) as [Hpq _].
  pose proof (normal_value (num fa * den fb) (den fa * num fb)) as Hv.
  fold q in Hpq, Hv.
  assert (Hd' : den q * den fb <> 0) by nia.
  assert (Hr : normal (num q * num fb) (den q * den fb) = fa).
  { apply normal_canonical_eq; [exact Hd' | exact Hca |].
    transitivity (num q * (den fa * num fb)); [rewrite Hv |]; ring. }
  exists (length (h ++ [q])), ((h ++ [q]) ++ [fa]).
  assert (Hlr : ((h ++ [q]) ++ [fa]) !! length (h ++ [q]) = Some fa)
    by apply lookup_alloc.
  assert (Hla : ((h ++ [q]) ++ [fa]) !! a = Some fa)
    by apply lookup_kept, lookup_kept, Ha.
  split.
  { erewrite bind_run.
    - rewrite (mul_run _ _ _ _ _ (lookup_alloc h q) (lookup_kept _ _ _ _ Hb)).
      rewrite init_run by exact Hd'. rewrite Hr. reflexivity.
    - rewrite (truediv_run _ _ _ _ _ Ha Hb).
      destruct (Z.eqb_spec (num fb) 0); [contradiction |].
      apply init_run, Hd. }
  split; [exact Hlr |]. split; [exact Hla |].
  rewrite (eq_run _ _ _ _ _ Hlr Hla), !Z.eqb_refl. reflexivity.
Qed.

Lemma mul_undoes_truediv_witness :
  let h := [mkFracao 1 2; mkFracao (-1) 3] in
  exists r h',
    (let* q := __truediv__ 0%nat 1%nat in __mul__ q 1%nat) h = (Ret r, h') /\
    h' !! r = Some (mkFracao 1 2).
Proof.
  intros h.
  destruct (mul_undoes_truediv h 0%nat 1%nat (mkFracao 1 2) (mkFracao (-1) 3))
    as (r & h' & Hrun & Hr & _);
    [reflexivity | reflexivity | split; reflexivity | split; reflexivity
    | simpl; lia |].
  exists r, h'. split; assumption.
Defined.

(** ** Further properties of the class *)

(** *** The arithmetic methods on canonical operands *)

Section Arithmetic.

Implicit Types (h : heap) (a b : loc) (f fa fb : Fracao).

Lemma canonical_den_pos f : canonical f -> 0 < den f.
Proof. intros [H _]. exact H. Qed.

Lemma add_fields_canonical fa fb :
  canonical fa -> canonical fb -> canonical (add_fields fa fb).
Proof. intros [Ha _] [Hb _]. apply normal_canonical. nia. Qed.

Lemma sub_fields_canonical fa fb :
  canonical fa -> canonical fb -> canonical (sub_fields fa fb).
Proof. intros [Ha _] [Hb _]. apply normal_canonical. nia. Qed.

Lemma mul_fields_canonical fa fb :
  canonical fa -> canonical fb -> canonical (mul_fields fa fb).
Proof. intros [Ha _] [Hb _]. apply normal_canonical. nia. Qed.

Lemma div_fields_canonical fa fb :
  canonical fa -> canonical fb -> num fb <> 0 ->
  canonical (div_fields fa fb).
Proof. intros [Ha _] [Hb _] Hn. apply normal_canonical. nia. Qed.

Lemma add_new h a b fa fb :
  h !! a = Some fa -> h !! b = Some fb ->
  canonical fa -> canonical fb ->
  __add__ a b h = (Ret (length h), h ++ [add_fields fa fb]).
Proof.
  intros Ha Hb [Hpa _] [Hpb _]. rewrite (add_run _ _ _ _ _ Ha Hb).
  apply init_run. nia.
Qed.

Lemma sub_new h a b fa fb :
  h !! a = Some fa -> h !! b = Some fb ->
  canonical fa -> canonical fb ->
  __sub__ a b h = (Ret (length h), h ++ [sub_fields fa fb]).
Proof.
  intros Ha Hb [Hpa _] [Hpb _]. rewrite (sub_run _ _ _ _ _ Ha Hb).
  apply init_run. nia.
Qed.

Lemma mul_new h a b fa fb :
  h !! a = Some fa -> h !! b = Some fb ->
  canonical fa -> canonical fb ->
  __mul__ a b h = (Ret (length h), h ++ [mul_fields fa fb]).
Proof.
  intros Ha Hb [Hpa _] [Hpb _]. rewrite (mul_run _ _ _ _ _ Ha Hb).
  apply init_run. nia.
Qed.

Lemma truediv_new h a b fa fb :
  h !! a = Some fa -> h !! b = Some fb ->
  canonical fa -> canonical fb -> num fb <> 0 ->
  __truediv__ a b h = (Ret (length h), h ++ [div_fields fa fb]).
Proof.
  intros Ha Hb [Hpa _] [Hpb _] Hn. rewrite (truediv_run _ _ _ _ _ Ha Hb).
  destruct (Z.eqb_spec (num fb) 0); [contradiction |].
  apply init_run. nia.
Qed.

(** Canonical fractions that stand for the same rational are the same. *)
Lemma value_inj fa fb :
  canonical fa -> canonical fb -> (value fa == value fb)%Q -> fa = fb.
Proof.
  intros Ha Hb E. apply canonical_unique; try assumption.
  apply value_eq; auto using canonical_den_pos.
Qed.

Lemma value_add fa fb :
  canonical fa -> canonical fb ->
  (value (add_fields fa fb) == value fa + value fb)%Q.
Proof.
  intros [Ha _] [Hb _]. unfold add_fields.
  assert (Hd : den fa * den fb <> 0) by nia.
  pose proof (normal_canonical (num fa * den fb + den fa * num fb) _ Hd)
    as [Hp _].
  pose proof (normal_value (num fa * den fb + den fa * num fb)
                (den fa * den fb)) as Hv.
  unfold Qeq, Qplus. rewrite value_den by assumption.
  unfold value at 2 3 4 5. simpl.
  rewrite Pos2Z.inj_mul, !Z2Pos.id by assumption. lia.
Qed.

Lemma value_sub fa fb :
  canonical fa -> canonical fb ->
  (value (sub_fields fa fb) == value fa - value fb)%Q.
Proof.
  intros [Ha _] [Hb _]. unfold sub_fields.
  assert (Hd : den fa * den fb <> 0) by nia.
  pose proof (normal_canonical (num fa * den fb - den fa * num fb) _ Hd)
    as [Hp _].
  pose proof (normal_value (num fa * den fb - den fa * num fb)
                (den fa * den fb)) as Hv.
  unfold Qeq, Qminus, Qplus, Qopp. rewrite value_den by assumption.
  unfold value at 2 3 4 5. simpl.
  rewrite Pos2Z.inj_mul, !Z2Pos.id by assumption. lia.
Qed.

Lemma value_mul fa fb :
  canonical fa -> canonical fb ->
  (value (mul_fields fa fb) == value fa * value fb)%Q.
Proof.
  intros [Ha _] [Hb _]. unfold mul_fields.
  assert (Hd : den fa * den fb <> 0) by nia.
  pose proof (normal_canonical (num fa * num fb) _ Hd) as [Hp _].
  pose proof (normal_value (num fa * num fb) (den fa * den fb)) as Hv.
  unfold Qeq, Qmult. rewrite value_den by assumption.
  unfold value at 2 3 4 5. simpl.
  rewrite Pos2Z.inj_mul, !Z2Pos.id by assumption. lia.
Qed.

Lemma value_div fa fb :
  canonical fa -> canonical fb -> num fb <> 0 ->
  (value (div_fields fa fb) == value fa / value fb)%Q.
Proof.
  intros [Ha _] [Hb _] Hn. unfold div_fields.
  assert (Hd : den fa * num fb <> 0) by nia.
  pose proof (normal_canonical (num fa * den fb) _ Hd) as [Hp _].
  pose proof (normal_value (num fa * den fb) (den fa * num fb)) as Hv.
  unfold Qeq, Qdiv, Qmult, Qinv. rewrite value_den by assumption.
  unfold value at 2 3 4 5. simpl.
  destruct (num fb) as [| p | p] eqn:E; [contradiction | |]; simpl;
    rewrite <- ?Pos2Z.opp_pos in *;
    rewrite ?Pos2Z.inj_mul, ?Z2Pos.id by assumption; lia.
Qed.

End Arithmetic.

(** *** Reduction of any object, and the constructor in closed form *)

Section Reduction.

Implicit Types (h : heap) (l a b : loc) (f : Fracao).

Lemma mdc_run h l f :
  h !! l = Some f -> mdc l h = (Ret (Z.gcd (num f) (den f)), h).
Proof.
  intros H. unfold mdc.
  rewrite (bind_get_num _ _ _ _ H), (bind_get_den _ _ _ _ H).
  rewrite mdc_loop_abs. reflexivity.
Qed.

(** Either both fields are divided by a gcd above one, or nothing changes
    and the gcd is zero or one. *)
Lemma simplified_cases f :
  (1 < Z.gcd (num f) (den f) /\
   simplified f =
   mkFracao (num f / Z.gcd (num f) (den f)) (den f / Z.gcd (num f) (den f)))
  \/ (Z.gcd (num f) (den f) <= 1 /\ simplified f = f).
Proof.
  unfold simplified. rewrite mdc_loop_abs.
  destruct (Z.ltb_spec 1 (Z.gcd (num f) (den f))); [left | right]; auto.
Qed.

Lemma sgn_div_exact x g : 0 < g -> (g | x) -> Z.sgn (x / g) = Z.sgn x.
Proof.
  intros Hg Hd. pose proof (Zdivide_Zdiv_eq g x Hg Hd) as E.
  rewrite E at 2. rewrite Z.sgn_mul, (Z.sgn_pos g) by assumption. lia.
Qed.

Lemma simplified_sgn_den f : Z.sgn (den (simplified f)) = Z.sgn (den f).
Proof.
  destruct (simplified_cases f) as [[Hg ->] | [_ ->]]; [| reflexivity].
  simpl. apply sgn_div_exact; [lia | apply Z.gcd_divide_r].
Qed.

Lemma simplified_sgn_num f : Z.sgn (num (simplified f)) = Z.sgn (num f).
Proof.
  destruct (simplified_cases f) as [[Hg ->] | [_ ->]]; [| reflexivity].
  simpl. apply sgn_div_exact; [lia | apply Z.gcd_divide_l].
Qed.

Lemma simplified_coprime f :
  num f <> 0 \/ den f <> 0 ->
  Z.gcd (num (simplified f)) (den (simplified f)) = 1.
Proof.
  intros Hnz.
  assert (Hg : Z.gcd (num f) (den f) <> 0).
  { intros E. pose proof (Z.gcd_eq_0_l _ _ E). pose proof (Z.gcd_eq_0_r _ _ E).
    lia. }
  pose proof (Z.gcd_nonneg (num f) (den f)).
  destruct (simplified_cases f) as [[_ ->] | [Hle ->]]; simpl.
  - apply Z.gcd_div_gcd; [assumption | reflexivity].
  - lia.
Qed.

Lemma simplified_idem f : simplified (simplified f) = simplified f.
Proof.
  destruct (Z.eq_dec (Z.gcd (num f) (den f)) 0) as [E | E].
  - destruct (simplified_cases f) as [[Hg _] | [_ ->]]; [lia |].
    destruct (simplified_cases f) as [[Hg _] | [_ ->]]; [lia | reflexivity].
  - assert (Hnz : num f <> 0 \/ den f <> 0).
    { destruct (Z.eq_dec (num f) 0) as [En |]; [| auto].
      destruct (Z.eq_dec (den f) 0) as [Ed |]; [| auto].
      rewrite En, Ed, Z.gcd_0_l in E. simpl in E. contradiction. }
    pose proof (simplified_coprime f Hnz) as Hc.
    destruct (simplified_cases (simplified f)) as [[Hg _] | [_ ->]];
      [lia | reflexivity].
Qed.

(** The fields the constructor stores, written out. *)
Lemma normal_closed_form n d :
  d <> 0 ->
  normal n d = mkFracao (Z.sgn d * n / Z.gcd n d) (Z.abs d / Z.gcd n d).
Proof.
  intros Hd. unfold normal, simplified.
  assert (Hg : 1 <= Z.gcd n d).
  { pose proof (Z.gcd_nonneg n d).
    assert (Z.gcd n d <> 0) by (intros E; apply Z.gcd_eq_0_r in E; lia).
    lia. }
  destruct (Z.ltb_spec d 0) as [Hneg | Hpos]; simpl;
    rewrite mdc_loop_abs, ?Z.gcd_opp_l, ?Z.gcd_opp_r.
  - rewrite (Z.sgn_neg d), (Z.abs_neq d) by lia.
    replace (-1 * n) with (- n) by ring.
    destruct (Z.ltb_spec 1 (Z.gcd n d)); [reflexivity |].
    replace (Z.gcd n d) with 1 by lia. rewrite !Z.div_1_r. reflexivity.
  - rewrite (Z.sgn_pos d), (Z.abs_eq d) by lia.
    replace (1 * n) with n by ring.
    destruct (Z.ltb_spec 1 (Z.gcd n d)); [reflexivity |].
    replace (Z.gcd n d) with 1 by lia. rewrite !Z.div_1_r. reflexivity.
Qed.

(** Two pairs of fields give the same object exactly when their cross
    products agree. *)
Lemma normal_eq_iff n1 d1 n2 d2 :
  d1 <> 0 -> d2 <> 0 ->
  normal n1 d1 = normal n2 d2 <-> n1 * d2 = n2 * d1.
Proof.
  intros H1 H2.
  pose proof (normal_value n1 d1) as V1.
  pose proof (normal_value n2 d2) as V2.
  pose proof (normal_canonical n1 d1 H1) as C1.
  pose proof (normal_canonical n2 d2 H2) as C2.
  split.
  - intros E. rewrite <- E in V2. destruct C1 as [Hp _].
    apply Z.mul_cancel_r with (den (normal n1 d1)); [lia |].
    transitivity (num (normal n1 d1) * d1 * d2); [rewrite V1; ring |].
    transitivity (num (normal n1 d1) * d2 * d1); [ring | rewrite V2; ring].
  - intros E. apply normal_canonical_eq; try assumption.
    apply Z.mul_cancel_r with d2; [assumption |].
    transitivity (num (normal n2 d2) * d2 * d1); [ring |].
    rewrite V2.
    transitivity (n2 * d1 * den (normal n2 d2)); [ring |].
    rewrite <- E. ring.
Qed.

End Reduction.

(** X1.  [mdc] returns the greatest common divisor of the two fields of any
    object, whatever their signs: it is not negative, divides both fields,
    every common divisor divides it, and it is zero only for [0/0].  The
    store is not changed. *)
Theorem mdc_is_gcd (h : heap) (l : loc) (f : Fracao) :
  h !! l = Some f ->
  exists g,
    mdc l h = (Ret g, h) /\
    g = Z.gcd (num f) (den f) /\
    0 <= g /\ (g | num f) /\ (g | den f) /\
    (forall c, (c | num f) -> (c | den f) -> (c | g)) /\
    (g = 0 <-> num f = 0 /\ den f = 0).
Proof.
  intros H. exists (Z.gcd (num f) (den f)).
  split; [apply mdc_run, H |]. split; [reflexivity |].
  split; [apply Z.gcd_nonneg |].
  split; [apply Z.gcd_divide_l |].
  split; [apply Z.gcd_divide_r |].
  split; [intros c; apply Z.gcd_greatest |].
  split.
  - intros E. split; [eapply Z.gcd_eq_0_l | eapply Z.gcd_eq_0_r]; exact E.
  - intros [-> ->]. reflexivity.
Qed.

Lemma mdc_is_gcd_witness :
  mdc 0%nat [mkFracao (-12) 18] = (Ret 6, [mkFracao (-12) 18]).
Proof.
  destruct (mdc_is_gcd [mkFracao (-12) 18] 0%nat (mkFracao (-12) 18))
    as (g & Hrun & Hg & _); [reflexivity |].
  rewrite Hrun, Hg. reflexivity.
Defined.

(** X2.  [simplifica] on any object, canonical or not, does not raise and
    returns its receiver.  Only the receiver changes: its fields keep their
    cross product with the old fields and their signs, and unless the
    object was [0/0], which is left as it is, they end coprime. *)
Theorem simplifica_any_object (h : heap) (l : loc) (f : Fracao) :
  h !! l = Some f ->
  exists f',
    simplifica l h = (Ret l, <[l := f']> h) /\
    num f' * den f = num f * den f' /\
    Z.sgn (num f') = Z.sgn (num f) /\
    Z.sgn (den f') = Z.sgn (den f) /\
    (num f <> 0 \/ den f <> 0 -> Z.gcd (num f') (den f') = 1) /\
    (num f = 0 /\ den f = 0 -> f' = f).
Proof.
  intros H. exists (simplified f).
  split; [apply simplifica_run, H |].
  split; [apply simplified_value |].
  split; [apply simplified_sgn_num |].
  split; [apply simplified_sgn_den |].
  split; [apply simplified_coprime |].
  intros [En Ed].
  destruct (simplified_cases f) as [[Hg _] | [_ E]]; [| exact E].
  rewrite En, Ed, Z.gcd_0_l in Hg. simpl in Hg. lia.
Qed.

Lemma simplifica_any_object_witness :
  simplifica 1%nat [mkFracao 1 2; mkFracao 6 (-4)] =
  (Ret 1%nat, [mkFracao 1 2; mkFracao 3 (-2)]).
Proof.
  destruct (simplifica_any_object [mkFracao 1 2; mkFracao 6 (-4)] 1%nat
              (mkFracao 6 (-4)))
    as (f' & Hrun & _); [reflexivity |].
  pose proof Hrun as Hc. vm_compute in Hc. injection Hc as <-. exact Hrun.
Defined.

(** X3.  [simplifica] is idempotent: a second call on the same object
    leaves the store that the first call produced. *)
Theorem simplifica_idempotent (h : heap) (l : loc) (f : Fracao) :
  h !! l = Some f ->
  (simplifica l;;; simplifica l) h = simplifica l h.
Proof.
  intros H. rewrite (bind_simplifica _ _ _ _ H).
  rewrite (simplifica_run _ _ _ (lookup_written _ _ _ _ H)).
  rewrite (simplifica_run _ _ _ H).
  rewrite list_insert_insert_eq, simplified_idem. reflexivity.
Qed.

Lemma simplifica_idempotent_witness :
  (simplifica 0%nat;;; simplifica 0%nat) [mkFracao 8 12] =
  (Ret 0%nat, [mkFracao 2 3]).
Proof.
  rewrite (simplifica_idempotent [mkFracao 8 12] 0%nat (mkFracao 8 12));
    reflexivity.
Defined.

(** X4.  For a non-zero denominator the constructor stores
    [sgn(d) * n / gcd(n, d)] over [|d| / gcd(n, d)]. *)
Theorem init_closed_form (h : heap) (n d : Z) :
  d <> 0 ->
  __init__ n d h =
  (Ret (length h),
   h ++ [mkFracao (Z.sgn d * n / Z.gcd n d) (Z.abs d / Z.gcd n d)]).
Proof.
  intros Hd. rewrite init_run by assumption.
  rewrite normal_closed_form by assumption. reflexivity.
Qed.

Lemma init_closed_form_witness :
  __init__ 6 (-4) [] = (Ret 0%nat, [mkFracao (-3) 2]).
Proof. apply (init_closed_form [] 6 (-4)). lia. Defined.

(** X5.  Scaling both arguments of the constructor by the same non-zero
    integer, in particular changing both signs, gives an object with the
    same fields. *)
Theorem init_scale_invariant (h : heap) (n d k : Z) :
  d <> 0 -> k <> 0 ->
  __init__ (k * n) (k * d) h = __init__ n d h.
Proof.
  intros Hd Hk. rewrite !init_run by nia. do 3 f_equal.
  apply normal_eq_iff; [nia | assumption | ring].
Qed.

Lemma init_scale_invariant_witness :
  __init__ (-3 * 1) (-3 * 2) [] = __init__ 1 2 [].
Proof. apply (init_scale_invariant [] 1 2 (-3)); lia. Defined.

(** X6.  Two objects built by the constructor are [==] exactly when the
    cross products of the arguments agree. *)
Theorem init_eq_iff_cross (h : heap) (n1 d1 n2 d2 : Z) :
  d1 <> 0 -> d2 <> 0 ->
  exists h',
    (let* x := __init__ n1 d1 in
     let* y := __init__ n2 d2 in __eq__ x y) h =
    (Ret (n1 * d2 =? n2 * d1), h').
Proof.
  intros H1 H2. eexists.
  rewrite bind_init by assumption. rewrite bind_init by assumption.
  erewrite eq_run; [| apply lookup_kept, lookup_alloc | apply lookup_alloc].
  do 2 f_equal. apply eq_true_iff_eq.
  rewrite andb_true_iff, !Z.eqb_eq.
  rewrite <- (normal_eq_iff n1 d1 n2 d2) by assumption.
  split.
  - intros [En Ed]. destruct (normal n1 d1), (normal n2 d2). simpl in *.
    congruence.
  - intros ->. auto.
Qed.

Lemma init_eq_iff_cross_witness :
  exists h',
    (let* x := __init__ 2 (-6) in
     let* y := __init__ (-5) 15 in __eq__ x y) [] = (Ret true, h').
Proof. apply (init_eq_iff_cross [] 2 (-6) (-5) 15); lia. Defined.

(** X7.  Building a new object from the fields of a canonical object gives
    a second object with the same fields. *)
Theorem init_of_canonical_fields (h : heap) (a : loc) (fa : Fracao) :
  h !! a = Some fa -> canonical fa ->
  (let* n := get_num a in let* d := get_den a in __init__ n d) h =
  (Ret (length h), h ++ [fa]).
Proof.
  intros Ha Hc.
  rewrite (bind_get_num _ _ _ _ Ha), (bind_get_den _ _ _ _ Ha).
  pose proof (canonical_den_pos _ Hc).
  rewrite init_run by lia. do 3 f_equal.
  apply normal_canonical_eq; [lia | assumption | reflexivity].
Qed.

Lemma init_of_canonical_fields_witness :
  (let* n := get_num 0%nat in let* d := get_den 0%nat in __init__ n d)
    [mkFracao (-3) 4] =
  (Ret 1%nat, [mkFracao (-3) 4; mkFracao (-3) 4]).
Proof.
  apply (init_of_canonical_fields [mkFracao (-3) 4] 0%nat (mkFracao (-3) 4));
    [reflexivity | split; reflexivity].
Defined.

(** *** Exact arithmetic and the store invariant *)

(** X8.  On canonical operands [+], [-] and [*] do not raise and do not
    touch the store they find: each appends one new canonical object, which
    stands for exactly the sum, the difference and the product of the
    rationals the operands stand for. *)
Theorem arithmetic_is_exact (h : heap) (a b : loc) (fa fb : Fracao) :
  h !! a = Some fa -> h !! b = Some fb ->
  canonical fa -> canonical fb ->
  (exists f,
     __add__ a b h = (Ret (length h), h ++ [f]) /\ canonical f /\
     (value f == value fa + value fb)%Q) /\
  (exists f,
     __sub__ a b h = (Ret (length h), h ++ [f]) /\ canonical f /\
     (value f == value fa - value fb)%Q) /\
  (exists f,
     __mul__ a b h = (Ret (length h), h ++ [f]) /\ canonical f /\
     (value f == value fa * value fb)%Q).
Proof.
  intros Ha Hb Hca Hcb. repeat split.
  - exists (add_fields fa fb). split; [apply add_new; assumption |].
    split; [apply add_fields_canonical | apply value_add]; assumption.
  - exists (sub_fields fa fb). split; [apply sub_new; assumption |].
    split; [apply sub_fields_canonical | apply value_sub]; assumption.
  - exists (mul_fields fa fb). split; [apply mul_new; assumption |].
    split; [apply mul_fields_canonical | apply value_mul]; assumption.
Qed.

Lemma arithmetic_is_exact_witness :
  let h := [mkFracao (-1) 2; mkFracao 1 3] in
  exists f,
    __sub__ 0%nat 1%nat h = (Ret 2%nat, h ++ [f]) /\ canonical f /\
    (value f == value (mkFracao (-1) 2) - value (mkFracao 1 3))%Q.
Proof.
  intros h.
  apply (arithmetic_is_exact h 0%nat 1%nat (mkFracao (-1) 2) (mkFracao 1 3));
    [reflexivity | reflexivity | split; reflexivity | split; reflexivity].
Defined.

(** X9.  On canonical operands with a non-zero divisor [/] appends one new
    canonical object that stands for exactly the quotient of the rationals
    the operands stand for. *)
Theorem truediv_is_exact (h : heap) (a b : loc) (fa fb : Fracao) :
  h !! a = Some fa -> h !! b = Some fb ->
  canonical fa -> canonical fb -> num fb <> 0 ->
  exists f,
    __truediv__ a b h = (Ret (length h), h ++ [f]) /\ canonical f /\
    (value f == value fa / value fb)%Q.
Proof.
  intros Ha Hb Hca Hcb Hn. exists (div_fields fa fb).
  split; [apply truediv_new; assumption |].
  split; [apply div_fields_canonical | apply value_div]; assumption.
Qed.

Lemma truediv_is_exact_witness :
  let h := [mkFracao 3 4; mkFracao (-1) 4] in
  exists f,
    __truediv__ 0%nat 1%nat h = (Ret 2%nat, h ++ [f]) /\ canonical f /\
    (value f == value (mkFracao 3 4) / value (mkFracao (-1) 4))%Q.
Proof.
  intros h.
  apply (truediv_is_exact h 0%nat 1%nat (mkFracao 3 4) (mkFracao (-1) 4));
    [reflexivity | reflexivity | split; reflexivity | split; reflexivity
    | simpl; lia].
Defined.

(** X10.  A store in which every object is canonical stays so under every
    method that writes, with any arguments and whether the method returns
    or raises: the constructor, [simplifica], [+], [-], [*], [/] and [+=]. *)
Theorem store_stays_canonical
    (h : heap) (a b : loc) (fa fb : Fracao) (n d : Z) :
  Forall canonical h ->
  h !! a = Some fa -> h !! b = Some fb ->
  Forall canonical (snd (__init__ n d h)) /\
  Forall canonical (snd (simplifica a h)) /\
  Forall canonical (snd (__add__ a b h)) /\
  Forall canonical (snd (__sub__ a b h)) /\
  Forall canonical (snd (__mul__ a b h)) /\
  Forall canonical (snd (__truediv__ a b h)) /\
  Forall canonical (snd (__iadd__ a b h)).
Proof.
  intros Hall Ha Hb.
  pose proof (Forall_lookup_1 _ _ _ _ Hall Ha) as Hca.
  pose proof (Forall_lookup_1 _ _ _ _ Hall Hb) as Hcb.
  pose proof (canonical_den_pos _ Hca) as Hpa.
  pose proof (canonical_den_pos _ Hcb) as Hpb.
  assert (Hnew : forall g, canonical g -> Forall canonical (h ++ [g])).
  { intros g Hg. apply Forall_app. split; [assumption |].
    constructor; [assumption | constructor]. }
  repeat split.
  - destruct (Z.eq_dec d 0) as [-> | Hd]; [rewrite init_raise; assumption |].
    rewrite init_run by assumption. apply Hnew, normal_canonical, Hd.
  - rewrite (simplifica_run _ _ _ Ha). apply Forall_insert; [assumption |].
    apply simplified_canonical, Hpa.
  - rewrite (add_new _ _ _ _ _ Ha Hb Hca Hcb).
    apply Hnew, add_fields_canonical; assumption.
  - rewrite (sub_new _ _ _ _ _ Ha Hb Hca Hcb).
    apply Hnew, sub_fields_canonical; assumption.
  - rewrite (mul_new _ _ _ _ _ Ha Hb Hca Hcb).
    apply Hnew, mul_fields_canonical; assumption.
  - rewrite (truediv_run _ _ _ _ _ Ha Hb).
    destruct (Z.eqb_spec (num fb) 0) as [| Hn]; [assumption |].
    rewrite init_run by nia. apply Hnew, normal_canonical. nia.
  - rewrite (iadd_run _ _ _ _ _ Ha Hb). apply Forall_insert; [assumption |].
    apply simplified_canonical. simpl. nia.
Qed.

Lemma store_stays_canonical_witness :
  let h := [mkFracao 1 2; mkFracao 0 1] in
  Forall canonical (snd (__truediv__ 0%nat 1%nat h)) /\
  Forall canonical (snd (__iadd__ 0%nat 0%nat h)).
Proof.
  intros h.
  destruct (store_stays_canonical h 0%nat 1%nat (mkFracao 1 2) (mkFracao 0 1)
              5 0)
    as (_ & _ & _ & _ & _ & Hdiv & _);
    [repeat constructor | reflexivity | reflexivity |].
  destruct (store_stays_canonical h 0%nat 0%nat (mkFracao 1 2) (mkFracao 1 2)
              5 0)
    as (_ & _ & _ & _ & _ & _ & Hiadd);
    [repeat constructor | reflexivity | reflexivity |].
  split; assumption.
Defined.

(** *** Order *)

Section Order.

Implicit Types (h : heap) (a b c : loc) (fa fb fc : Fracao).

Lemma holds_lt h a b fa fb :
  h !! a = Some fa -> h !! b = Some fb ->
  canonical fa -> canonical fb ->
  holds (__lt__ a b) h <-> (value fa < value fb)%Q.
Proof.
  intros Ha Hb Hca Hcb. unfold holds. rewrite (lt_run _ _ _ _ _ Ha Hb).
  rewrite value_lt by auto using canonical_den_pos.
  rewrite <- Z.ltb_lt. split; [congruence | intros ->; reflexivity].
Qed.

Lemma holds_le h a b fa fb :
  h !! a = Some fa -> h !! b = Some fb ->
  canonical fa -> canonical fb ->
  holds (__le__ a b) h <-> (value fa <= value fb)%Q.
Proof.
  intros Ha Hb Hca Hcb. unfold holds. rewrite (le_run _ _ _ _ _ Ha Hb).
  rewrite value_le by auto using canonical_den_pos.
  rewrite <- Z.leb_le. split; [congruence | intros ->; reflexivity].
Qed.

Lemma holds_eq h a b fa fb :
  h !! a = Some fa -> h !! b = Some fb ->
  holds (__eq__ a b) h <-> fa = fb.
Proof.
  intros Ha Hb. unfold holds. rewrite (eq_run _ _ _ _ _ Ha Hb).
  split.
  - intros E. assert (E' : (num fa =? num fb) && (den fa =? den fb) = true)
      by congruence.
    apply andb_true_iff in E' as [En Ed].
    apply Z.eqb_eq in En, Ed. destruct fa, fb; simpl in *; congruence.
  - intros ->. rewrite !Z.eqb_refl. reflexivity.
Qed.

End Order.

(** X11.  On canonical operands [>=] and [>] fit the other comparisons:
    [a >= b] is the negation of [a < b] and the same as [b <= a]; [a > b] is
    the negation of [a <= b] and the same as [b < a]; [a == b] is
    [a >= b] without [a > b]; and [a >= b] holds exactly when the rational
    of [a] is at least that of [b].  The store is not changed. *)
Theorem ge_gt_consistent (h : heap) (a b : loc) (fa fb : Fracao) :
  h !! a = Some fa -> h !! b = Some fb ->
  canonical fa -> canonical fb ->
  exists rge rgt,
    __ge__ a b h = (Ret rge, h) /\
    __gt__ a b h = (Ret rgt, h) /\
    __lt__ a b h = (Ret (negb rge), h) /\
    __le__ b a h = (Ret rge, h) /\
    __le__ a b h = (Ret (negb rgt), h) /\
    __lt__ b a h = (Ret rgt, h) /\
    __eq__ a b h = (Ret (rge && negb rgt), h) /\
    (rge = true <-> (value fb <= value fa)%Q) /\
    (rgt = true <-> (value fb < value fa)%Q).
Proof.
  intros Ha Hb Hca Hcb.
  pose proof (canonical_den_pos _ Hca). pose proof (canonical_den_pos _ Hcb).
  eexists _, _.
  split; [apply (ge_run _ _ _ _ _ Ha Hb) |].
  split; [apply (gt_run _ _ _ _ _ Ha Hb) |].
  rewrite (lt_run _ _ _ _ _ Ha Hb), (le_run _ _ _ _ _ Hb Ha).
  rewrite (le_run _ _ _ _ _ Ha Hb), (lt_run _ _ _ _ _ Hb Ha).
  rewrite (eq_run _ _ _ _ _ Ha Hb).
  rewrite value_le, value_lt by assumption.
  assert (Heq : (num fa =? num fb) && (den fa =? den fb) =
                (num fa * den fb =? num fb * den fa)).
  { apply eq_true_iff_eq. rewrite andb_true_iff, !Z.eqb_eq. split.
    - intros [-> ->]. reflexivity.
    - intros Hx. pose proof (canonical_unique fa fb Hca Hcb Hx). subst fb.
      auto. }
  rewrite Heq, Z.geb_leb, Z.gtb_ltb.
  repeat split; try (do 2 f_equal; lia); lia.
Qed.

Lemma ge_gt_consistent_witness :
  let h := [mkFracao 1 2; mkFracao (-1) 3] in
  __ge__ 0%nat 1%nat h = (Ret true, h) /\ __gt__ 0%nat 1%nat h = (Ret true, h).
Proof.
  intros h.
  destruct (ge_gt_consistent h 0%nat 1%nat (mkFracao 1 2) (mkFracao (-1) 3))
    as (rge & rgt & Hge & Hgt & _);
    [reflexivity | reflexivity | split; reflexivity | split; reflexivity |].
  rewrite Hge, Hgt. vm_compute in Hge, Hgt. split; congruence.
Defined.

(** X12.  On canonical objects [<=] is a total order up to [==]: it is
    reflexive, any two objects are comparable, [a <= b] and [b <= a] make
    [a == b] true, and [<=] and [<] are transitive. *)
Theorem le_is_total_order
    (h : heap) (a b c : loc) (fa fb fc : Fracao) :
  h !! a = Some fa -> h !! b = Some fb -> h !! c = Some fc ->
  canonical fa -> canonical fb -> canonical fc ->
  holds (__le__ a a) h /\
  (holds (__le__ a b) h \/ holds (__le__ b a) h) /\
  (holds (__le__ a b) h -> holds (__le__ b a) h -> holds (__eq__ a b) h) /\
  (holds (__le__ a b) h -> holds (__le__ b c) h -> holds (__le__ a c) h) /\
  (holds (__lt__ a b) h -> holds (__lt__ b c) h -> holds (__lt__ a c) h).
Proof.
  intros Ha Hb Hc Hca Hcb Hcc.
  rewrite !(holds_le h a) by eassumption.
  rewrite !(holds_le h b) by eassumption.
  rewrite !(holds_lt h a) by eassumption.
  rewrite !(holds_lt h b) by eassumption.
  rewrite (holds_eq h a b fa fb) by assumption.
  repeat split.
  - apply Qle_refl.
  - destruct (Qlt_le_dec (value fb) (value fa)) as [Hlt | Hle];
      [right; apply Qlt_le_weak, Hlt | left; exact Hle].
  - intros H1 H2. apply value_inj; try assumption.
    apply Qle_antisym; assumption.
  - apply Qle_trans.
  - apply Qlt_trans.
Qed.

Lemma le_is_total_order_witness :
  let h := [mkFracao (-1) 2; mkFracao 1 3; mkFracao 2 3] in
  holds (__lt__ 0%nat 2%nat) h.
Proof.
  intros h.
  destruct (le_is_total_order h 0%nat 1%nat 2%nat
              (mkFracao (-1) 2) (mkFracao 1 3) (mkFracao 2 3))
    as (_ & _ & _ & _ & Htrans);
    [reflexivity | reflexivity | reflexivity
    | split; reflexivity | split; reflexivity | split; reflexivity |].
  apply Htrans; reflexivity.
Defined.

(** *** How the operations compose *)

Section Composition.

Implicit Types (h : heap) (a b c : loc) (f fa fb fc : Fracao).

Lemma evaluates_bind (m : M loc) (k : loc -> M loc) h x h' f :
  m h = (Ret x, h') -> evaluates (k x) h' f -> evaluates (bind m k) h f.
Proof.
  intros Hm (l & h'' & Hk & Hl). exists l, h''.
  split; [rewrite (bind_run _ _ _ _ _ Hm); exact Hk | exact Hl].
Qed.

Lemma evaluates_add h a b fa fb :
  h !! a = Some fa -> h !! b = Some fb ->
  canonical fa -> canonical fb ->
  evaluates (__add__ a b) h (add_fields fa fb).
Proof.
  intros Ha Hb Hca Hcb. eexists _, _.
  split; [apply add_new; eassumption | apply lookup_alloc].
Qed.

Lemma evaluates_sub h a b fa fb :
  h !! a = Some fa -> h !! b = Some fb ->
  canonical fa -> canonical fb ->
  evaluates (__sub__ a b) h (sub_fields fa fb).
Proof.
  intros Ha Hb Hca Hcb. eexists _, _.
  split; [apply sub_new; eassumption | apply lookup_alloc].
Qed.

Lemma evaluates_mul h a b fa fb :
  h !! a = Some fa -> h !! b = Some fb ->
  canonical fa -> canonical fb ->
  evaluates (__mul__ a b) h (mul_fields fa fb).
Proof.
  intros Ha Hb Hca Hcb. eexists _, _.
  split; [apply mul_new; eassumption | apply lookup_alloc].
Qed.

Lemma evaluates_truediv h a b fa fb :
  h !! a = Some fa -> h !! b = Some fb ->
  canonical fa -> canonical fb -> num fb <> 0 ->
  evaluates (__truediv__ a b) h (div_fields fa fb).
Proof.
  intros Ha Hb Hca Hcb Hn. eexists _, _.
  split; [apply truediv_new; eassumption | apply lookup_alloc].
Qed.

Lemma evaluates_eq (m : M loc) h f g :
  f = g -> evaluates m h f -> evaluates m h g.
Proof. intros ->. auto. Qed.

(** A canonical fraction is zero as a rational exactly when its numerator
    is zero. *)
Lemma value_zero_iff f : (value f == 0)%Q <-> num f = 0.
Proof. unfold Qeq, value. simpl. lia. Qed.

End Composition.

Create HintDb canon.
#[local] Hint Resolve add_fields_canonical sub_fields_canonical
  mul_fields_canonical div_fields_canonical : canon.

(** Finds an object in a store that has grown since the object was seen. *)
Ltac solve_lookup :=
  solve [repeat first [apply lookup_alloc | apply lookup_kept | eassumption]].

(** Runs the first operation of a sequence and keeps what it built. *)
Ltac run_op lem :=
  eapply evaluates_bind;
    [apply lem; first [solve_lookup | solve [eauto with canon]] |].

(** Closes a goal about the last operation of a sequence. *)
Ltac last_op lem :=
  apply lem; first [solve_lookup | solve [eauto with canon]].

(** Equality of canonical fields from equality of the rationals. *)
Ltac by_value :=
  apply value_inj; [solve [eauto 6 with canon] .. |];
  repeat first
    [ rewrite value_add by solve [eauto 6 with canon]
    | rewrite value_sub by solve [eauto 6 with canon]
    | rewrite value_mul by solve [eauto 6 with canon]
    | rewrite value_div by solve [eauto 6 with canon] ].

(** X13.  Addition of canonical objects is associative: [(a + b) + c] and
    [a + (b + c)] build objects with the same fields. *)
Theorem add_associates (h : heap) (a b c : loc) (fa fb fc : Fracao) :
  h !! a = Some fa -> h !! b = Some fb -> h !! c = Some fc ->
  canonical fa -> canonical fb -> canonical fc ->
  exists f,
    evaluates (let* ab := __add__ a b in __add__ ab c) h f /\
    evaluates (let* bc := __add__ b c in __add__ a bc) h f.
Proof.
  intros Ha Hb Hc Hca Hcb Hcc.
  exists (add_fields (add_fields fa fb) fc). split.
  - run_op add_new. last_op evaluates_add.
  - replace (add_fields (add_fields fa fb) fc)
      with (add_fields fa (add_fields fb fc)).
    + run_op add_new. last_op evaluates_add.
    + by_value. ring.
Qed.

Lemma add_associates_witness :
  let h := [mkFracao 1 2; mkFracao (-1) 3; mkFracao 5 6] in
  exists f,
    evaluates (let* ab := __add__ 0%nat 1%nat in __add__ ab 2%nat) h f /\
    evaluates (let* bc := __add__ 1%nat 2%nat in __add__ 0%nat bc) h f.
Proof.
  intros h.
  apply (add_associates h 0%nat 1%nat 2%nat
           (mkFracao 1 2) (mkFracao (-1) 3) (mkFracao 5 6));
    [reflexivity | reflexivity | reflexivity
    | split; reflexivity | split; reflexivity | split; reflexivity].
Defined.

(** X14.  Subtraction and addition of canonical objects undo each other:
    [(a - b) + b] and [(a + b) - b] both build an object with the fields of
    [a]. *)
Theorem sub_add_round_trip (h : heap) (a b : loc) (fa fb : Fracao) :
  h !! a = Some fa -> h !! b = Some fb ->
  canonical fa -> canonical fb ->
  evaluates (let* d := __sub__ a b in __add__ d b) h fa /\
  evaluates (let* s := __add__ a b in __sub__ s b) h fa.
Proof.
  intros Ha Hb Hca Hcb. split.
  - apply (evaluates_eq _ _ (add_fields (sub_fields fa fb) fb)).
    + by_value. ring.
    + run_op sub_new. last_op evaluates_add.
  - apply (evaluates_eq _ _ (sub_fields (add_fields fa fb) fb)).
    + by_value. ring.
    + run_op add_new. last_op evaluates_sub.
Qed.

Lemma sub_add_round_trip_witness :
  let h := [mkFracao 1 2; mkFracao (-2) 3] in
  evaluates (let* d := __sub__ 0%nat 1%nat in __add__ d 1%nat) h
    (mkFracao 1 2) /\
  evaluates (let* s := __add__ 0%nat 1%nat in __sub__ s 1%nat) h
    (mkFracao 1 2).
Proof.
  intros h.
  apply (sub_add_round_trip h 0%nat 1%nat (mkFracao 1 2) (mkFracao (-2) 3));
    [reflexivity | reflexivity | split; reflexivity | split; reflexivity].
Defined.

(** X15.  Multiplication of canonical objects is commutative and
    associative, and distributes over addition: each pair of expressions
    builds objects with the same fields. *)
Theorem mul_laws (h : heap) (a b c : loc) (fa fb fc : Fracao) :
  h !! a = Some fa -> h !! b = Some fb -> h !! c = Some fc ->
  canonical fa -> canonical fb -> canonical fc ->
  (exists f,
     evaluates (__mul__ a b) h f /\ evaluates (__mul__ b a) h f) /\
  (exists f,
     evaluates (let* ab := __mul__ a b in __mul__ ab c) h f /\
     evaluates (let* bc := __mul__ b c in __mul__ a bc) h f) /\
  (exists f,
     evaluates (let* bc := __add__ b c in __mul__ a bc) h f /\
     evaluates (let* ab := __mul__ a b in
                let* ac := __mul__ a c in __add__ ab ac) h f).
Proof.
  intros Ha Hb Hc Hca Hcb Hcc. repeat split.
  - exists (mul_fields fa fb). split; [last_op evaluates_mul |].
    apply (evaluates_eq _ _ (mul_fields fb fa));
      [by_value; ring | last_op evaluates_mul].
  - exists (mul_fields (mul_fields fa fb) fc). split.
    + run_op mul_new. last_op evaluates_mul.
    + apply (evaluates_eq _ _ (mul_fields fa (mul_fields fb fc))).
      * by_value. ring.
      * run_op mul_new. last_op evaluates_mul.
  - exists (mul_fields fa (add_fields fb fc)). split.
    + run_op add_new. last_op evaluates_mul.
    + apply (evaluates_eq _ _
               (add_fields (mul_fields fa fb) (mul_fields fa fc))).
      * by_value. ring.
      * run_op mul_new. run_op mul_new. last_op evaluates_add.
Qed.

Lemma mul_laws_witness :
  let h := [mkFracao 2 3; mkFracao (-3) 4; mkFracao 1 6] in
  exists f,
    evaluates (let* bc := __add__ 1%nat 2%nat in __mul__ 0%nat bc) h f /\
    evaluates (let* ab := __mul__ 0%nat 1%nat in
               let* ac := __mul__ 0%nat 2%nat in __add__ ab ac) h f.
Proof.
  intros h.
  apply (mul_laws h 0%nat 1%nat 2%nat
           (mkFracao 2 3) (mkFracao (-3) 4) (mkFracao 1 6));
    [reflexivity | reflexivity | reflexivity
    | split; reflexivity | split; reflexivity | split; reflexivity].
Defined.

(** X16.  Division undoes multiplication: for canonical operands with the
    numerator of [b] not zero, [(a * b) / b] builds an object with the
    fields of [a], and [b / b] builds [1/1]. *)
Theorem truediv_undoes_mul (h : heap) (a b : loc) (fa fb : Fracao) :
  h !! a = Some fa -> h !! b = Some fb ->
  canonical fa -> canonical fb -> num fb <> 0 ->
  evaluates (let* p := __mul__ a b in __truediv__ p b) h fa /\
  evaluates (__truediv__ b b) h (mkFracao 1 1).
Proof.
  intros Ha Hb Hca Hcb Hn.
  assert (Hv : ~ (value fb == 0)%Q) by (rewrite value_zero_iff; exact Hn).
  assert (Hone : canonical (mkFracao 1 1)) by (split; reflexivity).
  split.
  - apply (evaluates_eq _ _ (div_fields (mul_fields fa fb) fb)).
    + by_value. field. exact Hv.
    + run_op mul_new. last_op evaluates_truediv.
  - apply (evaluates_eq _ _ (div_fields fb fb)).
    + by_value. change (value (mkFracao 1 1)) with 1%Q. field. exact Hv.
    + last_op evaluates_truediv.
Qed.

Lemma truediv_undoes_mul_witness :
  let h := [mkFracao 1 2; mkFracao (-2) 3] in
  evaluates (let* p := __mul__ 0%nat 1%nat in __truediv__ p 1%nat) h
    (mkFracao 1 2) /\
  evaluates (__truediv__ 1%nat 1%nat) h (mkFracao 1 1).
Proof.
  intros h.
  apply (truediv_undoes_mul h 0%nat 1%nat (mkFracao 1 2) (mkFracao (-2) 3));
    [reflexivity | reflexivity | split; reflexivity | split; reflexivity
    | simpl; lia].
Defined.

(** X17.  The objects [0/1] and [1/1] are neutral: for a canonical [a],
    [a + 0/1] and [a * 1/1] build objects with the fields of [a],
    [a * 0/1] and [a - a] build [0/1]. *)
Theorem zero_and_one (h : heap) (a z u : loc) (fa : Fracao) :
  h !! a = Some fa -> canonical fa ->
  h !! z = Some (mkFracao 0 1) -> h !! u = Some (mkFracao 1 1) ->
  evaluates (__add__ a z) h fa /\
  evaluates (__mul__ a u) h fa /\
  evaluates (__mul__ a z) h (mkFracao 0 1) /\
  evaluates (__sub__ a a) h (mkFracao 0 1).
Proof.
  intros Ha Hca Hz Hu.
  assert (Hzero : canonical (mkFracao 0 1)) by (split; reflexivity).
  assert (Hone : canonical (mkFracao 1 1)) by (split; reflexivity).
  repeat split.
  - apply (evaluates_eq _ _ (add_fields fa (mkFracao 0 1))).
    + by_value. change (value (mkFracao 0 1)) with 0%Q. ring.
    + last_op evaluates_add.
  - apply (evaluates_eq _ _ (mul_fields fa (mkFracao 1 1))).
    + by_value. change (value (mkFracao 1 1)) with 1%Q. ring.
    + last_op evaluates_mul.
  - apply (evaluates_eq _ _ (mul_fields fa (mkFracao 0 1))).
    + by_value. change (value (mkFracao 0 1)) with 0%Q. ring.
    + last_op evaluates_mul.
  - apply (evaluates_eq _ _ (sub_fields fa fa)).
    + by_value. change (value (mkFracao 0 1)) with 0%Q. ring.
    + last_op evaluates_sub.
Qed.

Lemma zero_and_one_witness :
  let h := [mkFracao (-3) 7; mkFracao 0 1; mkFracao 1 1] in
  evaluates (__add__ 0%nat 1%nat) h (mkFracao (-3) 7) /\
  evaluates (__mul__ 0%nat 2%nat) h (mkFracao (-3) 7) /\
  evaluates (__mul__ 0%nat 1%nat) h (mkFracao 0 1) /\
  evaluates (__sub__ 0%nat 0%nat) h (mkFracao 0 1).
Proof.
  intros h.
  apply (zero_and_one h 0%nat 1%nat 2%nat (mkFracao (-3) 7));
    [reflexivity | split; reflexivity | reflexivity | reflexivity].
Defined.

(** X18.  Adding the same canonical object on both sides keeps the order:
    [a + c < b + c] is answered as [a < b] is. *)
Theorem add_preserves_order
    (h : heap) (a b c : loc) (fa fb fc : Fracao) :
  h !! a = Some fa -> h !! b = Some fb -> h !! c = Some fc ->
  canonical fa -> canonical fb -> canonical fc ->
  exists x y h',
    (let* x := __add__ a c in
     let* y := __add__ b c in ret (x, y)) h = (Ret (x, y), h') /\
    (holds (__lt__ x y) h' <-> holds (__lt__ a b) h) /\
    (holds (__le__ x y) h' <-> holds (__le__ a b) h).
Proof.
  intros Ha Hb Hc Hca Hcb Hcc.
  exists (length h), (length (h ++ [add_fields fa fc])),
    ((h ++ [add_fields fa fc]) ++ [add_fields fb fc]).
  split.
  { erewrite bind_run; [| apply add_new; eassumption].
    erewrite bind_run;
      [| apply add_new; first [solve_lookup | eassumption]].
    reflexivity. }
  rewrite (holds_lt h a b fa fb), (holds_le h a b fa fb) by assumption.
  erewrite holds_lt;
    [| solve_lookup | solve_lookup | eauto with canon ..].
  erewrite holds_le;
    [| solve_lookup | solve_lookup | eauto with canon ..].
  rewrite !value_add by assumption.
  split; [apply Qplus_lt_l | apply Qplus_le_l].
Qed.

Lemma add_preserves_order_witness :
  let h := [mkFracao 1 3; mkFracao 1 2; mkFracao (-5) 6] in
  exists x y h',
    (let* x := __add__ 0%nat 2%nat in
     let* y := __add__ 1%nat 2%nat in ret (x, y)) h = (Ret (x, y), h') /\
    holds (__lt__ x y) h'.
Proof.
  intros h.
  destruct (add_preserves_order h 0%nat 1%nat 2%nat
              (mkFracao 1 3) (mkFracao 1 2) (mkFracao (-5) 6))
    as (x & y & h' & Hrun & Hlt & _);
    [reflexivity | reflexivity | reflexivity
    | split; reflexivity | split; reflexivity | split; reflexivity |].
  exists x, y, h'. split; [exact Hrun | apply Hlt; reflexivity].
Defined.

(** X19.  Subtraction is anti-commutative: on canonical operands [b - a]
    builds the object [a - b] builds with the numerator negated. *)
Theorem sub_swaps_sign (h : heap) (a b : loc) (fa fb : Fracao) :
  h !! a = Some fa -> h !! b = Some fb ->
  canonical fa -> canonical fb ->
  exists f,
    evaluates (__sub__ a b) h f /\
    evaluates (__sub__ b a) h (mkFracao (- num f) (den f)).
Proof.
  intros Ha Hb Hca Hcb. exists (sub_fields fa fb).
  split; [last_op evaluates_sub |].
  apply (evaluates_eq _ _ (sub_fields fb fa)); [| last_op evaluates_sub].
  pose proof (sub_fields_canonical fa fb Hca Hcb) as [Hp Hg].
  apply value_inj; [eauto with canon | |].
  - split; simpl; [exact Hp | rewrite Z.abs_opp; exact Hg].
  - change (value (mkFracao (- num (sub_fields fa fb))
                            (den (sub_fields fa fb))))
      with (- value (sub_fields fa fb))%Q.
    rewrite !value_sub by assumption. ring.
Qed.

Lemma sub_swaps_sign_witness :
  let h := [mkFracao 1 2; mkFracao 1 4] in
  exists f,
    evaluates (__sub__ 0%nat 1%nat) h f /\
    evaluates (__sub__ 1%nat 0%nat) h (mkFracao (- num f) (den f)).
Proof.
  intros h.
  apply (sub_swaps_sign h 0%nat 1%nat (mkFracao 1 2) (mkFracao 1 4));
    [reflexivity | reflexivity | split; reflexivity | split; reflexivity].
Defined.

(** X20.  After [a += b] on canonical operands the receiver stands for the
    sum of the rationals the two operands stood for before; when both
    operands are one object that is twice its old value.  Every other
    object is as before. *)
Theorem iadd_is_exact (h : heap) (a b : loc) (fa fb : Fracao) :
  h !! a = Some fa -> h !! b = Some fb ->
  canonical fa -> canonical fb ->
  exists f,
    __iadd__ a b h = (Ret a, <[a := f]> h) /\
    canonical f /\
    (value f == value fa + value fb)%Q /\
    (a = b -> (value f == (2 # 1) * value fa)%Q) /\
    (a <> b -> <[a := f]> h !! b = Some fb).
Proof.
  intros Ha Hb Hca Hcb.
  pose proof (canonical_den_pos _ Hca). pose proof (canonical_den_pos _ Hcb).
  exists (add_fields fa fb).
  split.
  { rewrite (iadd_run _ _ _ _ _ Ha Hb). unfold add_fields, normal.
    destruct (Z.ltb_spec (den fa * den fb) 0); [nia | reflexivity]. }
  split; [eauto with canon |].
  split; [apply value_add; assumption |].
  split.
  - intros ->. assert (fa = fb) as -> by congruence.
    rewrite value_add by assumption. ring.
  - intros Hne. rewrite list_lookup_insert_ne by assumption. exact Hb.
Qed.

Lemma iadd_is_exact_witness :
  let h := [mkFracao 1 3; mkFracao 1 6] in
  exists f,
    __iadd__ 0%nat 0%nat h = (Ret 0%nat, <[0%nat := f]> h) /\
    (value f == (2 # 1) * value (mkFracao 1 3))%Q.
Proof.
  intros h.
  destruct (iadd_is_exact h 0%nat 0%nat (mkFracao 1 3) (mkFracao 1 3))
    as (f & Hrun & _ & _ & Hdouble & _);
    [reflexivity | reflexivity | split; reflexivity | split; reflexivity |].
  exists f. split; [exact Hrun | apply Hdouble; reflexivity].
Defined.

(** X21.  A fraction whose numerator is a multiple of its denominator
    prints as the quotient alone: [str(Fracao(k*d, d))] is the decimal
    writing of [k], for every non-zero [d]. *)
Theorem str_of_whole_number (h : heap) (k d : Z) :
  d <> 0 ->
  (let* x := __init__ (k * d) d in __str__ x) h =
  (Ret (pretty k), h ++ [mkFracao k 1]).
Proof.
  intros Hd. rewrite bind_init by assumption.
  assert (E : normal (k * d) d = mkFracao k 1).
  { apply normal_canonical_eq; [assumption | | simpl; ring].
    split; simpl; [lia | apply Z.gcd_1_r]. }
  rewrite E, (str_run _ _ _ (lookup_alloc _ _)). simpl.
  destruct (Z.eqb_spec k 0) as [-> |]; reflexivity.
Qed.

Lemma str_of_whole_number_witness :
  (let* x := __init__ (-7 * -3) (-3) in __str__ x) [] =
  (Ret "-7"%string, [mkFracao (-7) 1]).
Proof. apply (str_of_whole_number [] (-7) (-3)). lia. Defined.

(** *** The printed form determines the fraction *)

Section Printing.

Implicit Types (s t : string) (z : Z).

Lemma has_slash_app s t : has_slash (s +:+ t) = has_slash s || has_slash t.
Proof.
  induction s as [| c s IH]; simpl; [reflexivity |].
  destruct (Ascii.eqb c "/"%char); [reflexivity | exact IH].
Qed.

Lemma pretty_N_go_no_slash (x : N) s :
  has_slash s = false -> has_slash (pretty_N_go x s) = false.
Proof.
  revert s. induction (N.lt_wf_0 x) as [x _ IH]; intros s Hs.
  assert (x = 0 \/ 0 < x)%N as [-> | Hx] by lia.
  - rewrite pretty_N_go_0. exact Hs.
  - rewrite pretty_N_go_step by assumption. apply IH.
    + apply N.div_lt; lia.
    + assert (Hc : Ascii.eqb (pretty_N_char (x `mod` 10)) "/"%char = false)
        by (unfold pretty_N_char; repeat case_match; reflexivity).
      simpl. rewrite Hc. exact Hs.
Qed.

Lemma pretty_pos_no_slash (p : positive) : has_slash (pretty p) = false.
Proof.
  unfold pretty, pretty_positive, pretty, pretty_N.
  case_decide; [reflexivity | apply pretty_N_go_no_slash; reflexivity].
Qed.

(** The decimal writing of an integer has no slash in it. *)
Lemma pretty_Z_no_slash z : has_slash (pretty z) = false.
Proof.
  destruct z as [| p | p]; unfold pretty, pretty_Z.
  - reflexivity.
  - apply pretty_pos_no_slash.
  - rewrite has_slash_app. simpl. apply pretty_pos_no_slash.
Qed.

(** A string is cut at its first slash in one way only. *)
Lemma cut_at_slash s1 t1 s2 t2 :
  has_slash s1 = false -> has_slash s2 = false ->
  s1 +:+ "/" +:+ t1 = s2 +:+ "/" +:+ t2 -> s1 = s2 /\ t1 = t2.
Proof.
  revert s2. induction s1 as [| c s1 IH]; intros [| c' s2]; simpl.
  - intros _ _ E. injection E as E. auto.
  - intros _ H2 E. injection E as Ec E. subst c'. discriminate.
  - intros H1 _ E. injection E as Ec E. subst c. discriminate.
  - intros H1 H2 E. injection E as Ec E. subst c'.
    destruct (Ascii.eqb c "/"%char); [discriminate |].
    destruct (IH s2 H1 H2 E) as [-> ->]. auto.
Qed.

End Printing.

(** X22.  Two canonical objects print alike only when they have the same
    fields: what [__str__] returns determines the fraction. *)
Theorem str_determines_fields (h : heap) (a b : loc) (fa fb : Fracao) :
  h !! a = Some fa -> h !! b = Some fb ->
  canonical fa -> canonical fb ->
  __str__ a h = __str__ b h <-> fa = fb.
Proof.
  intros Ha Hb Hca Hcb.
  rewrite (str_run _ _ _ Ha), (str_run _ _ _ Hb).
  split; [| intros ->; reflexivity].
  intros E. injection E as E.
  assert (Hsl : forall n d : Z, has_slash (pretty n +:+ "/" +:+ pretty d) = true).
  { intros n d. rewrite has_slash_app, pretty_Z_no_slash. reflexivity. }
  assert (Hfields : forall f g : Fracao,
            num f = num g -> den f = den g -> f = g).
  { intros [? ?] [? ?]; simpl; congruence. }
  destruct (Z.eqb_spec (num fa) 0) as [Hna | Hna],
           (Z.eqb_spec (num fb) 0) as [Hnb | Hnb].
  - rewrite (canonical_zero _ Hca Hna), (canonical_zero _ Hcb Hnb).
    reflexivity.
  - exfalso. destruct (Z.eqb_spec (den fb) 1).
    + apply Hnb. symmetry. apply (pretty_Z_inj 0 (num fb)). exact E.
    + pose proof (Hsl (num fb) (den fb)) as H. rewrite <- E in H.
      discriminate.
  - exfalso. destruct (Z.eqb_spec (den fa) 1).
    + apply Hna. apply (pretty_Z_inj (num fa) 0). exact E.
    + pose proof (Hsl (num fa) (den fa)) as H. rewrite E in H.
      discriminate.
  - destruct (Z.eqb_spec (den fa) 1) as [Hda | Hda],
             (Z.eqb_spec (den fb) 1) as [Hdb | Hdb].
    + apply Hfields; [apply pretty_Z_inj; exact E | congruence].
    + exfalso. pose proof (Hsl (num fb) (den fb)) as H. rewrite <- E in H.
      rewrite pretty_Z_no_slash in H. discriminate.
    + exfalso. pose proof (Hsl (num fa) (den fa)) as H. rewrite E in H.
      rewrite pretty_Z_no_slash in H. discriminate.
    + apply cut_at_slash in E as [En Ed]; try apply pretty_Z_no_slash.
      apply Hfields; apply pretty_Z_inj; assumption.
Qed.

Lemma str_determines_fields_witness :
  let h := [mkFracao (-1) 12; mkFracao (-11) 2] in
  __str__ 0%nat h <> __str__ 1%nat h.
Proof.
  intros h E.
  apply (str_determines_fields h 0%nat 1%nat
           (mkFracao (-1) 12) (mkFracao (-11) 2)) in E;
    [discriminate | reflexivity | reflexivity
    | split; reflexivity | split; reflexivity].
Defined.
